(** * Swedish flashcard trainer: vocabulary store and selection engine

    A shallow embedding of [flashcard_web_app.py] and the properties of its
    vocabulary store, mixture sampling, cooldown filter, draw handlers and
    bulk admin update.

    Conventions of the embedding.
    - A vocabulary entry is a Python [dict]; the five keys the program reads
      are the fields of a record.  On disk [label] and [seen] may be absent
      ([load_words] tests for them), in memory they are always present.
    - [words] is a Python list of dict objects that the draw handlers mutate
      in place through aliases.  Every element of the list is an object of
      its own ([json.load] allocates one dict per entry), so an object is
      identified by its position in [words]: a reference is a position
      together with the contents read there.
    - [DATA_FILE] is the only file; it is modelled by its parsed contents and
      by the history of [json.dump] calls.
    - [time.time()] is read as a whole number of seconds.
    - A ratio weight is a finite double, held as the rational number it
      denotes.  [len(pool) * ratio] is computed as the interpreter does: the
      length is converted to a double, the product is rounded to the nearest
      double, ties to even, and [int] truncates toward zero.  A product
      beyond the largest double, for which [int] raises, is outside the
      model (the weights the admin panel accepts lie between 0 and 1).
    - The [random] module draws from an explicit tape of naturals:
      [_randbelow(n)] is the next number of the tape modulo [n].  A uniform
      choice among [n] entries is a choice at that index: every index below
      [n] is the residue of the same share of the numbers, and is drawn for
      some tape.
    - [str.lower] and the secret [ADMIN_PASSWORD] are parameters.
    - [st.session_state] is a record; its initial value is what the guards
      [if "..." not in st.session_state] install.  [st.rerun()] ends the run;
      the run that follows is a run like any other. *)

From Stdlib Require Import QArith Qround Qpower SpecFloat.
From stdpp Require Import gmap strings list fin_maps.

Local Open Scope Z_scope.

(** ** Vocabulary entries *)

Record Item := mkItem {
  swedish : string;
  english : string;
  category : string;
  label : string;
  seen : Z
}.

(** An entry as [json.load] returns it: [label] and [seen] may be missing. *)
Record RawItem := mkRaw {
  raw_swedish : string;
  raw_english : string;
  raw_category : string;
  raw_label : option string;
  raw_seen : option Z
}.

Global Instance Item_eq_dec : EqDecision Item.
Proof. solve_decision. Defined.

Global Instance RawItem_eq_dec : EqDecision RawItem.
Proof. solve_decision. Defined.

Definition set_label (l : string) (w : Item) : Item :=
  mkItem (swedish w) (english w) (category w) l (seen w).

Definition set_seen (n : Z) (w : Item) : Item :=
  mkItem (swedish w) (english w) (category w) (label w) n.

(** [selected["seen"] += 1] *)
Definition incr_seen (w : Item) : Item := set_seen (seen w + 1) w.

(** The body of the [for w in words] loop of [load_words]. *)
Definition fill_defaults (r : RawItem) : Item :=
  mkItem (raw_swedish r) (raw_english r) (raw_category r)
         (default "0%" (raw_label r)) (default 0 (raw_seen r)).

(** What [json.dump] writes for an in-memory entry. *)
Definition to_json (w : Item) : RawItem :=
  mkRaw (swedish w) (english w) (category w) (Some (label w)) (Some (seen w)).

(** ** The data file *)

Record Store := mkStore {
  file : option (list RawItem);      (* [None]: [DATA_FILE] does not exist *)
  dumps : list (list RawItem)        (* every [json.dump], newest first *)
}.

Definition COOLDOWN_SECONDS : Z := 300.
Definition LABELS : list string := ["0%"; "25%"; "50%"; "75%"; "100%"].

Definition save_words (words : list Item) (fs : Store) : Store :=
  mkStore (Some (to_json <$> words)) ((to_json <$> words) :: dumps fs).

Definition load_words (fs : Store) : list Item * Store :=
  match file fs with
  | None => ([], fs)
  | Some raw =>
      let words := fill_defaults <$> raw in
      (words, save_words words fs)
  end.

(** An on-disk collection in which no entry lacks [label] or [seen]. *)
Definition normalized (raw : list RawItem) : Prop :=
  Forall (λ r, is_Some (raw_label r) ∧ is_Some (raw_seen r)) raw.

(** ** The [random] module

    Every call of the generator takes the next number of a tape; the tape
    stands for the generator state, and each result the library can return
    is returned for some tape. *)

Definition Rand (A : Type) : Type := list nat → A * list nat.

Definition rret {A} (a : A) : Rand A := λ t, (a, t).

Definition rbind {A B} (m : Rand A) (k : A → Rand B) : Rand B :=
  λ t, let '(a, t') := m t in k a t'.

Notation "x <~ m ;; k" := (rbind m (λ x, k))
  (at level 100, m at next level, right associativity).

(** [_randbelow(n)], for [0 < n]. *)
Definition randbelow (n : nat) : Rand nat :=
  λ t, match t with
       | [] => (O, [])
       | r :: t' => (r mod n, t')%nat
       end.

(** [random.choice(seq)] on the non-empty sequence [x :: l]:
    [seq[_randbelow(len(seq))]]. *)
Definition choice {A} (x : A) (l : list A) : Rand A :=
  j <~ randbelow (length (x :: l));; rret (nth j (x :: l) x).

(** [random.sample(population, k)] for [k <= len(population)]: the pool
    loop [j = randbelow(n - i); result[i] = pool[j]; pool[j] = pool[n-i-1]].
    (For long populations the library draws positions and rejects repeats
    instead; either way the result is [k] entries at distinct positions.) *)
Fixpoint sample {A} (pool : list A) (k : nat) : Rand (list A) :=
  match k, pool with
  | S k', x :: _ =>
      j <~ randbelow (length pool);;
      let pool' := take (length pool - 1) (<[j := List.last pool x]> pool) in
      rest <~ sample pool' k';;
      rret (nth j pool x :: rest)
  | _, _ => rret []
  end.

(** [random.shuffle(x)]: [for i in reversed(range(1, len(x))):
    j = randbelow(i + 1); x[i], x[j] = x[j], x[i]]. *)
Definition swap {A} (i j : nat) (x : list A) : list A :=
  match x !! i, x !! j with
  | Some xi, Some xj => <[j := xi]> (<[i := xj]> x)
  | _, _ => x
  end.

Fixpoint shuffle_from {A} (i : nat) (x : list A) : Rand (list A) :=
  match i with
  | O => rret x
  | S i' => j <~ randbelow (i + 1);; shuffle_from i' (swap i j x)
  end.

Definition shuffle {A} (x : list A) : Rand (list A) :=
  shuffle_from (length x - 1) x.

(** The first [N] numbers of the tape [t], with zeros where the tape has run
    out, and what it is for a computation to take exactly [N] numbers from
    the generator: the tape moves [N] places, and the result is decided by
    those [N] numbers alone. *)
Fixpoint pad (N : nat) (t : list nat) : list nat :=
  match N with
  | O => []
  | S n => match t with
           | [] => O :: pad n []
           | r :: t' => r :: pad n t'
           end
  end.

Definition reads {A} (N : nat) (m : Rand A) : Prop :=
  ∀ t, (m t).2 = drop N t ∧ ∀ t2, m (pad N t ++ t2) = ((m t).1, t2).

(** ** Stage A: the weighted mixture *)

(** A reference to an element of [words]: its position and its contents. *)
Definition Ref : Type := nat * Item.

Definition enumerate (words : list Item) : list Ref :=
  imap (λ i w, (i, w)) words.

(** [int(x)] on a number: truncation toward zero. *)
Definition int_of (x : Q) : Z := Z.quot (Qnum x) (Zpos (Qden x)).

(** *** Binary64 arithmetic

    Rounding of a real number to the nearest double, ties to even: 53
    significant bits, the last of them of weight no less than [2 ^ -1074]. *)

(** [floor(log2 a)] for [0 < a]. *)
Definition ilog2 (a : Q) : Z :=
  if Qle_bool 1 a then Z.log2 (Qfloor a) else - Z.log2_up (Qceiling (/ a)).

Definition round_half_even (y : Q) : Z :=
  let f := Qfloor y in
  match (2 * (y - inject_Z f) ?= 1)%Q with
  | Lt => f
  | Gt => f + 1
  | Eq => if Z.even f then f else f + 1
  end.

Definition round_magnitude (a : Q) : Q :=
  let q := Z.max (ilog2 a - 52) (-1074) in
  (inject_Z (round_half_even (a / 2 ^ q)) * 2 ^ q)%Q.

Definition round64 (x : Q) : Q :=
  match Qnum x with
  | Z0 => 0%Q
  | Zpos _ => round_magnitude x
  | Zneg _ => (- round_magnitude (- x))%Q
  end.

(** [float(n)] for an [int], and the product [a * b] of two doubles. *)
Definition float_of_int (n : Z) : Q := round64 (inject_Z n).

Definition float_mul (a b : Q) : Q := round64 (a * b).

(** The number a finite double of the Standard Library's [spec_float]
    denotes; used to compare [float_mul] with the library's [SFmul]. *)
Definition SF_value (f : spec_float) : Q :=
  match f with
  | S754_finite s m e => ((if s then -1 else 1) * inject_Z (Zpos m) * 2 ^ e)%Q
  | _ => 0%Q
  end.

(** [ratios] is a dict; its items in insertion order. *)
Definition Ratios : Type := list (string * Q).

Definition mixture_pool (words : list Item) (ratios : Ratios) : list Ref :=
  filter (λ r, label r.2 ∈ ratios.*1) (enumerate words).

Definition bucket (pool : list Ref) (lbl : string) : list Ref :=
  filter (λ r, label r.2 = lbl) pool.

(** Line 58: [max(1, int(len(pool) * ratio))]. *)
Definition mixture_count (pool : list Ref) (ratio : Q) : Z :=
  Z.max 1 (int_of (float_mul (float_of_int (Z.of_nat (length pool))) ratio)).

(** The [for label, ratio in ratios.items()] loop. *)
Fixpoint mixture_loop (pool : list Ref) (items : Ratios) (result : list Ref)
  : Rand (list Ref) :=
  match items with
  | [] => rret result
  | (lbl, ratio) :: items' =>
      let lw := bucket pool lbl in
      let count := mixture_count pool ratio in
      s <~ sample lw (Z.to_nat (Z.min (Z.of_nat (length lw)) count));;
      mixture_loop pool items' (result ++ s)
  end.

(** The number of entries the loop samples for one dict item, and what a
    sample for it is: that many entries of its bucket, none taken twice. *)
Definition sample_size (pool : list Ref) (it : string * Q) : nat :=
  Z.to_nat (Z.min (Z.of_nat (length (bucket pool it.1))) (mixture_count pool it.2)).

Definition is_sample (pool : list Ref) (it : string * Q) (s : list Ref) : Prop :=
  s ⊆+ bucket pool it.1 ∧ length s = sample_size pool it.

Definition select_random_mixture (words : list Item) (ratios : Ratios)
  : Rand (list Ref) :=
  result <~ mixture_loop (mixture_pool words ratios) ratios [];;
  shuffle result.

Section Program.

(** [str.lower] and the configured admin password. *)
Variable str_lower : string → string.
Variable ADMIN_PASSWORD : string.

Definition same_key (a b : string) : bool :=
  bool_decide (str_lower a = str_lower b).

(** Some entry of [words] has the key [k], compared as [word_exists] does. *)
Definition has_key (k : string) (words : list Item) : Prop :=
  ∃ w, w ∈ words ∧ str_lower (swedish w) = str_lower k.

Definition word_exists (swedish_word : string) (fs : Store) : bool * Store :=
  let '(words, fs) := load_words fs in
  (existsb (λ w, same_key (swedish w) swedish_word) words, fs).

Definition add_word (sv en cat : string) (fs : Store) : bool * Store :=
  let '(found, fs) := word_exists sv fs in
  if found then (false, fs)
  else
    let '(words, fs) := load_words fs in
    (true, save_words (words ++ [mkItem sv en cat "0%" 0]) fs).

(** ** Session state and what a run shows *)

Record Session := mkSession {
  recently_seen : gmap string Z;     (* exposure key -> time of last draw *)
  ratios : Ratios;
  current_word : option Item;
  reveal : bool
}.

(** The values the guards [if "..." not in st.session_state] install; a
    decimal literal denotes the double nearest to it. *)
Definition default_ratios : Ratios :=
  [("0%", round64 (6 # 10)); ("25%", round64 (2 # 10)); ("50%", round64 (15 # 100));
   ("75%", 0%Q); ("100%", round64 (5 # 100))].

Definition new_session : Session := mkSession ∅ default_ratios None false.

Inductive Message :=
| NoNewWordsAvailable            (* "No new words available right now. ..." *)
| NoWordsInThisCategory          (* "No words in this category." *)
| AddedSuccessfully (sv : string)
| AlreadyExists (sv : string)
| PleaseFillInAllFields
| IncorrectPassword
| AccessGranted
| AllLabelsReset
| AllSeenReset
| UpdatedSelected
| NoWordsAddedYet.

Inductive Notice :=
| st_warning (m : Message)
| st_success (m : Message)
| st_error (m : Message)
| st_info (m : Message).

Record Outcome := mkOutcome {
  out_words : list Item;             (* the list [words] when the run ends *)
  out_session : Session;
  out_store : Store;
  out_tape : list nat;
  out_notices : list Notice
}.

(** ** Stage B: the cooldown filter *)

(** Lines 132-135 and 279-282: the dict comprehension over [recently_seen]. *)
Definition prune (now : Z) (rs : gmap string Z) : gmap string Z :=
  filter (λ kt, now - kt.2 < COOLDOWN_SECONDS) rs.

(** [st.session_state.recently_seen = {...}] with that comprehension. *)
Definition prune_session (now : Z) (ss : Session) : Session :=
  mkSession (prune now (recently_seen ss)) (ratios ss)
            (current_word ss) (reveal ss).

(** Lines 137-140 and 284-287: the list comprehension over the result of
    [select_random_mixture]; [field] is ["swedish"] or ["english"]. *)
Definition not_recently_seen (field : Item → string) (rs : gmap string Z)
    (candidates : list Ref) : list Ref :=
  filter (λ r, rs !! field r.2 = None) candidates.

Definition available_words (field : Item → string) (words : list Item)
    (ratios : Ratios) (rs : gmap string Z) : Rand (list Ref) :=
  candidates <~ select_random_mixture words ratios;;
  rret (not_recently_seen field rs candidates).

(** ** Stage C: the draw handlers *)

(** The body of [if st.button("Draw New Word")] (lines 147-155) and of
    [if st.button("Draw English Word")] (lines 290-298). *)
Definition draw_word (field : Item → string) (now : Z) (available : list Ref)
    (words : list Item) (ss : Session) (fs : Store) (tape : list nat) : Outcome :=
  match available with
  | [] => mkOutcome words ss fs tape [st_warning NoNewWordsAvailable]
  | x :: l =>
      let '(selected, tape) := choice x l tape in
      let words := alter incr_seen selected.1 words in
      let fs := save_words words fs in
      let ss := mkSession (<[field selected.2 := now]> (recently_seen ss))
                          (ratios ss) (words !! selected.1) false in
      mkOutcome words ss fs tape []
  end.

(** Line 170. *)
Definition filtered_words (selected_category : option string)
    (words : list Item) : list Ref :=
  filter (λ r, Some (category r.2) = selected_category) (enumerate words).

(** The body of [if st.button("Draw Word from Category")] (lines 172-179). *)
Definition draw_from_category (filtered : list Ref)
    (words : list Item) (ss : Session) (fs : Store) (tape : list nat) : Outcome :=
  match filtered with
  | [] => mkOutcome words ss fs tape [st_warning NoWordsInThisCategory]
  | x :: l =>
      let '(selected, tape) := choice x l tape in
      let words := alter incr_seen selected.1 words in
      let ss := mkSession (recently_seen ss) (ratios ss)
                          (words !! selected.1) false in
      let fs := save_words words fs in
      mkOutcome words ss fs tape []
  end.

(** ** The admin panel *)

Definition reset_all_labels (words : list Item) (fs : Store) : list Item * Store :=
  let words := set_label "0%" <$> words in (words, save_words words fs).

Definition reset_all_seen (words : list Item) (fs : Store) : list Item * Store :=
  let words := set_seen 0 <$> words in (words, save_words words fs).

Record BulkForm := mkBulkForm {
  selected_labels : list string;
  new_bulk_label : string;
  min_seen : Z;
  max_seen : Z;
  new_seen_value : Z;
  checked : nat → bool               (* state of the checkbox [select_idx] *)
}.

(** [label_match or seen_match] of lines 258-260. *)
Definition eligible (f : BulkForm) (w : Item) : bool :=
  let label_match :=
    bool_decide (selected_labels f = []) || bool_decide (label w ∈ selected_labels f) in
  let seen_match :=
    bool_decide (min_seen f ≤ seen w)%Z && bool_decide (seen w ≤ max_seen f)%Z in
  label_match || seen_match.

(** Lines 256-265: a checkbox is shown, and read, for eligible entries only. *)
Definition selected_indices (f : BulkForm) (words : list Item) : list nat :=
  (filter (λ r, eligible f r.2 = true ∧ checked f r.1 = true) (enumerate words)).*1.

(** Lines 268-271. *)
Definition apply_bulk_update (f : BulkForm) (indices : list nat)
    (words : list Item) (fs : Store) : list Item * Store :=
  let words :=
    foldl (λ ws idx,
             alter (set_seen (new_seen_value f)) idx
                   (alter (set_label (new_bulk_label f)) idx ws))
          words indices in
  (words, save_words words fs).

(** [ratios[k] = v] on the dict. *)
Fixpoint dict_set (k : string) (v : Q) (d : Ratios) : Ratios :=
  match d with
  | [] => [(k, v)]
  | (k', v') :: d' =>
      if decide (k' = k) then (k, v) :: d' else (k', v') :: dict_set k v d'
  end.

(** Lines 222-233: one [st.number_input] per label. *)
Definition adjust_ratios (ratio_input : string → Q) (d : Ratios) : Ratios :=
  foldl (λ d lbl,
           let d := if decide (lbl ∈ d.*1) then d else dict_set lbl 0%Q d in
           dict_set lbl (ratio_input lbl) d)
        d LABELS.

(** ** One run of the script

    A run is one execution of [main]: the sidebar choice, the values the
    widgets of the chosen page return in this run (buttons as booleans, the
    selectbox as the selected category or [None] when there is none to
    choose), the clock and the generator tape come from the environment. *)

Inductive Menu :=
| LearnNewWords (draw show : bool)
| FlashcardsByCategory (selected_category : option string) (draw show : bool)
| EnglishToSwedish (draw show : bool)
| AddNewWord (sv en cat : string) (add : bool)
| ViewAllWords
| AdminPanel (password : string) (ratio_input : string → Q)
             (reset_labels reset_seen : bool) (form : BulkForm) (apply : bool).

(** [if st.session_state.current_word: ... if not reveal: if st.button(..):
    reveal = True; st.rerun()] *)
Definition show_translation (show : bool) (ss : Session) : Session :=
  match current_word ss with
  | Some _ =>
      if negb (reveal ss) && show
      then mkSession (recently_seen ss) (ratios ss) (current_word ss) true
      else ss
  | None => ss
  end.

Definition after_show (show : bool) (o : Outcome) : Outcome :=
  mkOutcome (out_words o) (show_translation show (out_session o))
            (out_store o) (out_tape o) (out_notices o).

(** The two mixture pages: lines 131-163 and 278-312. *)
Definition mixture_page (field : Item → string) (draw show : bool) (now : Z)
    (words : list Item) (ss : Session) (fs : Store) (tape : list nat) : Outcome :=
  let ss := prune_session now ss in
  let '(available, tape) :=
    available_words field words (ratios ss) (recently_seen ss) tape in
  let o := if draw then draw_word field now available words ss fs tape
           else mkOutcome words ss fs tape [] in
  after_show show o.

Definition category_page (selected_category : option string) (draw show : bool)
    (words : list Item) (ss : Session) (fs : Store) (tape : list nat) : Outcome :=
  let filtered := filtered_words selected_category words in
  let o := if draw then draw_from_category filtered words ss fs tape
           else mkOutcome words ss fs tape [] in
  after_show show o.

Definition add_page (sv en cat : string) (add : bool)
    (words : list Item) (ss : Session) (fs : Store) (tape : list nat) : Outcome :=
  if add then
    if bool_decide (sv ≠ "") && bool_decide (en ≠ "") && bool_decide (cat ≠ "") then
      let '(added, fs) := add_word sv en cat fs in
      mkOutcome words ss fs tape
                [if added then st_success (AddedSuccessfully sv)
                 else st_error (AlreadyExists sv)]
    else mkOutcome words ss fs tape [st_warning PleaseFillInAllFields]
  else mkOutcome words ss fs tape [].

(** Lines 212-273; [st.rerun()] ends the run. *)
Definition admin_page (password : string) (ratio_input : string → Q)
    (reset_labels reset_seen : bool) (form : BulkForm) (apply : bool)
    (words : list Item) (ss : Session) (fs : Store) (tape : list nat) : Outcome :=
  if bool_decide (password ≠ ADMIN_PASSWORD) then
    mkOutcome words ss fs tape [st_warning IncorrectPassword]
  else
    let ss := mkSession (recently_seen ss) (adjust_ratios ratio_input (ratios ss))
                        (current_word ss) (reveal ss) in
    if reset_labels then
      let '(words, fs) := reset_all_labels words fs in
      mkOutcome words ss fs tape [st_success AccessGranted; st_success AllLabelsReset]
    else if reset_seen then
      let '(words, fs) := reset_all_seen words fs in
      mkOutcome words ss fs tape [st_success AccessGranted; st_success AllSeenReset]
    else
      let indices := selected_indices form words in
      if apply then
        let '(words, fs) := apply_bulk_update form indices words fs in
        mkOutcome words ss fs tape [st_success AccessGranted; st_success UpdatedSelected]
      else mkOutcome words ss fs tape [st_success AccessGranted].

Definition main (menu : Menu) (now : Z) (ss : Session) (fs : Store)
    (tape : list nat) : Outcome :=
  let '(words, fs) := load_words fs in
  match menu with
  | LearnNewWords draw show =>
      mixture_page swedish draw show now words ss fs tape
  | FlashcardsByCategory c draw show =>
      category_page c draw show words ss fs tape
  | EnglishToSwedish draw show =>
      mixture_page english draw show now words ss fs tape
  | AddNewWord sv en cat add => add_page sv en cat add words ss fs tape
  | ViewAllWords =>
      mkOutcome words ss fs tape
                (if words is [] then [st_info NoWordsAddedYet] else [])
  | AdminPanel password ratio_input reset_labels reset_seen form apply =>
      admin_page password ratio_input reset_labels reset_seen form apply
                 words ss fs tape
  end.

End Program.

(** ** A session: successive runs *)

(** The two drill directions and the field each uses as exposure identity. *)
Inductive Direction := SwedishToEnglish | EnglishToSwedishDir.

Definition exposure (d : Direction) : Item → string :=
  match d with SwedishToEnglish => swedish | EnglishToSwedishDir => english end.

Definition mixture_menu (d : Direction) (draw show : bool) : Menu :=
  match d with
  | SwedishToEnglish => LearnNewWords draw show
  | EnglishToSwedishDir => EnglishToSwedish draw show
  end.

(** The three pages with a draw button, the menu entry with the button
    pressed, and the list the handler of each draws from. *)
Inductive DrawPage :=
| Mixture (d : Direction)
| Category (selected_category : option string).

Definition draw_menu (p : DrawPage) (show : bool) : Menu :=
  match p with
  | Mixture d => mixture_menu d true show
  | Category c => FlashcardsByCategory c true show
  end.

Definition drawable (p : DrawPage) (now : Z) (words : list Item) (ss : Session)
  : Rand (list Ref) :=
  match p with
  | Mixture d =>
      available_words (exposure d) words (ratios ss) (prune now (recently_seen ss))
  | Category c => rret (filtered_words c words)
  end.

(** What the environment supplies to one run. *)
Record Input := mkInput {
  in_menu : Menu;
  in_now : Z;
  in_tape : list nat
}.

Section Runs.
Variable str_lower : string → string.
Variable ADMIN_PASSWORD : string.

Definition step (st : Session * Store) (i : Input) : Session * Store :=
  let o := main str_lower ADMIN_PASSWORD (in_menu i) (in_now i) st.1 st.2 (in_tape i) in
  (out_session o, out_store o).

Definition run_all (st : Session * Store) (ins : list Input) : Session * Store :=
  foldl step st ins.

End Runs.


(** ** Grouping by seen count *)

(** The dict [group_by_seen] returns has three fixed keys, the strings
    "Low (0-2)", "Medium (3-5)" and "High (6+)" (the source writes the ranges
    with an en dash); they are the fields of a record. *)
Record SeenGroups := mkSeenGroups {
  low : list Item;
  medium : list Item;
  high : list Item
}.

(** The body of the [for word in words] loop of lines 91-97. *)
Definition group_step (g : SeenGroups) (word : Item) : SeenGroups :=
  if bool_decide (seen word ≤ 2) then
    mkSeenGroups (low g ++ [word]) (medium g) (high g)
  else if bool_decide (seen word ≤ 5) then
    mkSeenGroups (low g) (medium g ++ [word]) (high g)
  else
    mkSeenGroups (low g) (medium g) (high g ++ [word]).

Definition group_by_seen (words : list Item) : SeenGroups :=
  foldl group_step (mkSeenGroups [] [] []) words.

(** ** Reading a run *)

(** Whether the draw button, and whether the show button, is pressed. *)
Definition draw_pressed (menu : Menu) : bool :=
  match menu with
  | LearnNewWords draw _ | FlashcardsByCategory _ draw _
  | EnglishToSwedish draw _ => draw
  | _ => false
  end.

Definition show_pressed (menu : Menu) : bool :=
  match menu with
  | LearnNewWords _ show | FlashcardsByCategory _ _ show
  | EnglishToSwedish _ show => show
  | _ => false
  end.

(** The admin panel opened with [password]. *)
Definition admin_with (password : string) (menu : Menu) : Prop :=
  match menu with
  | AdminPanel p _ _ _ _ _ => p = password
  | _ => False
  end.

(** Entries keep their position and every field but [seen], which does not
    go down. *)
Definition keeps_entries (ws ws' : list Item) : Prop :=
  ∀ i w, ws !! i = Some w →
         ∃ w', ws' !! i = Some w'
               ∧ swedish w' = swedish w ∧ english w' = english w
               ∧ category w' = category w ∧ label w' = label w
               ∧ seen w ≤ seen w'.

(** Entries keep their position, their two terms and their category. *)
Definition keeps_identity (ws ws' : list Item) : Prop :=
  ∀ i w, ws !! i = Some w →
         ∃ w', ws' !! i = Some w'
               ∧ swedish w' = swedish w ∧ english w' = english w
               ∧ category w' = category w.

(** The data file, when there is one, has [label] and [seen] on every entry. *)
Definition tidy (fs : Store) : Prop :=
  ∀ raw, file fs = Some raw → normalized raw.

(** ** Concrete data used in the examples *)

(** [str.lower] on ASCII letters. *)
Definition ascii_lower_char (c : Ascii.ascii) : Ascii.ascii :=
  let n := Ascii.nat_of_ascii c in
  if (65 <=? n)%nat && (n <=? 90)%nat then Ascii.ascii_of_nat (n + 32) else c.

Fixpoint ascii_lower (s : string) : string :=
  match s with
  | EmptyString => EmptyString
  | String c s' => String (ascii_lower_char c) (ascii_lower s')
  end.

Definition hund : Item := mkItem "hund" "dog" "animals" "0%" 0.
Definition katt : Item := mkItem "katt" "cat" "animals" "0%" 2.
Definition hus : Item := mkItem "hus" "house" "home" "75%" 1.
Definition bord : Item := mkItem "bord" "table" "home" "25%" 1.

Definition demo_words : list Item := [hund; katt; hus; bord].

(** A data file written before [label] and [seen] existed. *)
Definition legacy_store : Store :=
  mkStore (Some [mkRaw "Hund" "dog" "animals" None None;
                 mkRaw "katt" "cat" "animals" (Some "50%") None]) [].

Definition no_store : Store := mkStore None [].

Definition demo_store : Store := mkStore (Some (to_json <$> demo_words)) [].

(** A one-word vocabulary, and a session in which that word was drawn on the
    Swedish-to-English page at time 900. *)
Definition hund_store : Store := mkStore (Some [to_json hund]) [].

Definition cooling_session : Session :=
  mkSession {[ "hund" := 900 ]} default_ratios None false.

(** The bulk form of the specification's scenario: no label selected, seen
    range [0,2], only the first box ticked. *)
Definition bulk_demo_form : BulkForm :=
  mkBulkForm [] "100%" 0 2 7 (λ idx, bool_decide (idx = 0%nat)).

Definition bulk_demo_words : list Item :=
  [mkItem "a" "x" "c" "0%" 1; mkItem "b" "y" "c" "50%" 9].

Definition demo_tape : list nat := [3; 1; 4; 1; 5; 9; 2; 6]%nat.

(** * Properties *)

(** ** The random primitives *)

Section RandomFacts.
Context {A : Type}.
Implicit Types (l pool : list A) (t : list nat).

Lemma randbelow_lt n t : (0 < n)%nat → ((randbelow n t).1 < n)%nat.
Proof.
  intros Hn. destruct t as [|r t]; simpl; [done|].
  apply Nat.mod_upper_bound. lia.
Qed.

Lemma randbelow_head n r t : randbelow n (r :: t) = ((r mod n)%nat, t).
Proof. done. Qed.

(** One round of the pool loop of [random.sample] moves one element out. *)
Lemma sample_round pool j d :
  (j < length pool)%nat →
  nth j pool d :: take (length pool - 1) (<[j := List.last pool d]> pool) ≡ₚ pool.
Proof.
  destruct pool as [|x0 pool0] using rev_ind; [simpl; lia|]. clear IHpool0.
  rename pool0 into init. intros Hj.
  rewrite last_last, length_app, Nat.add_sub. simpl in *.
  rewrite length_app in Hj; simpl in Hj.
  destruct (decide (j = length init)) as [->|Hne].
  - rewrite nth_lookup, list_lookup_middle by done. simpl.
    rewrite insert_app_r_alt, Nat.sub_diag by lia. simpl.
    rewrite take_app_length. by rewrite Permutation_app_comm.
  - assert (j < length init)%nat as Hlt by lia.
    destruct (lookup_lt_is_Some_2 init j Hlt) as [y Hy].
    rewrite nth_lookup, lookup_app_l, Hy by done. simpl.
    rewrite insert_app_l by done.
    rewrite take_app_length' by (by rewrite length_insert).
    etrans; [|apply (Permutation_insert_swap (init ++ [x0]) j (length init) y x0)].
    + rewrite insert_app_l by done.
      rewrite insert_app_r_alt, length_insert, Nat.sub_diag
        by (rewrite length_insert; lia).
      simpl. by rewrite (Permutation_app_comm _ [y]).
    + by rewrite lookup_app_l.
    + by rewrite list_lookup_middle.
Qed.

Lemma sample_submseteq pool k t : (sample pool k t).1 ⊆+ pool.
Proof.
  revert pool t. induction k as [|k IH]; intros pool t; simpl.
  { apply submseteq_nil_l. }
  destruct pool as [|x pool0]; [done|].
  set (pool := x :: pool0). unfold rbind.
  pose proof (randbelow_lt (length pool) t ltac:(simpl; lia)) as Hj.
  destruct (randbelow (length pool) t) as [j t1]; simpl in Hj.
  specialize (IH (take (length pool - 1) (<[j:=List.last pool x]> pool)) t1).
  destruct (sample _ k t1) as [rest t2]; simpl in *.
  trans (nth j pool x :: take (length pool - 1) (<[j:=List.last pool x]> pool)).
  - by apply submseteq_skip.
  - apply Permutation_submseteq, sample_round. done.
Qed.

Lemma sample_length pool k t :
  (k ≤ length pool)%nat → length (sample pool k t).1 = k.
Proof.
  revert pool t. induction k as [|k IH]; intros pool t Hk; simpl; [done|].
  destruct pool as [|x pool0]; [simpl in Hk; lia|].
  set (pool := x :: pool0) in *. unfold rbind.
  destruct (randbelow (length pool) t) as [j t1].
  specialize (IH (take (length pool - 1) (<[j:=List.last pool x]> pool)) t1).
  destruct (sample _ k t1) as [rest t2]; simpl in *.
  rewrite IH; [done|].
  rewrite length_take, length_insert. subst pool. simpl in *. lia.
Qed.

Lemma swap_Permutation i j l : swap i j l ≡ₚ l.
Proof.
  unfold swap. destruct (l !! i) as [xi|] eqn:Hi; [|done].
  destruct (l !! j) as [xj|] eqn:Hj; [|done].
  by apply Permutation_insert_swap.
Qed.

Lemma shuffle_from_Permutation i l t : (shuffle_from i l t).1 ≡ₚ l.
Proof.
  revert l t. induction i as [|i IH]; intros l t; simpl; [done|].
  unfold rbind. destruct (randbelow _ t) as [j t1].
  by rewrite IH, swap_Permutation.
Qed.

Lemma shuffle_Permutation l t : (shuffle l t).1 ≡ₚ l.
Proof. apply shuffle_from_Permutation. Qed.

(** [random.choice] returns the element at the index the generator gives. *)
Lemma choice_spec (x : A) l t :
  ∃ j, (j < length (x :: l))%nat ∧ randbelow (length (x :: l)) t = (j, (choice x l t).2)
       ∧ (x :: l) !! j = Some (choice x l t).1.
Proof.
  unfold choice, rbind.
  pose proof (randbelow_lt (length (x :: l)) t ltac:(simpl; lia)) as Hj.
  destruct (randbelow _ t) as [j t1]; simpl in Hj. exists j.
  split; [done|]. split; [done|]. unfold rret. cbn [fst].
  rewrite nth_lookup. by destruct (lookup_lt_is_Some_2 (x :: l) j Hj) as [y ->].
Qed.

Lemma choice_elem (x : A) l t : (choice x l t).1 ∈ x :: l.
Proof.
  destruct (choice_spec x l t) as (j & _ & _ & Hj).
  by eapply list_elem_of_lookup_2.
Qed.

End RandomFacts.

(** ** Stage A *)

Section ListFacts.
Context {A : Type} (P : A → Prop) `{!∀ x, Decision (P x)}.

Lemma filter_none (l : list A) : (∀ x, x ∈ l → ¬ P x) → filter P l = [].
Proof.
  induction l as [|x l IH]; intros Hl; [done|].
  rewrite filter_cons_False by (apply Hl; left).
  apply IH. intros y Hy. apply Hl. by right.
Qed.


Lemma submseteq_NoDup (l k : list A) : l ⊆+ k → NoDup k → NoDup l.
Proof.
  intros [k' Hk]%submseteq_Permutation. rewrite Hk.
  by intros [? _]%NoDup_app.
Qed.

End ListFacts.

Section MixtureFacts.
Implicit Types (words : list Item) (ratios items : Ratios) (pool : list Ref).

Lemma elem_of_enumerate words i w :
  (i, w) ∈ enumerate words ↔ words !! i = Some w.
Proof.
  unfold enumerate. rewrite elem_of_lookup_imap. split.
  - by intros (j & y & [= -> ->] & ?).
  - intros ?. by exists i, w.
Qed.

Lemma enumerate_fst words : (enumerate words).*1 = seq 0 (length words).
Proof.
  unfold enumerate. rewrite fmap_imap.
  rewrite (imap_ext _ (λ j _, id j)) by done.
  by rewrite imap_seq_0, list_fmap_id.
Qed.

Lemma enumerate_snd words : (enumerate words).*2 = words.
Proof.
  unfold enumerate. rewrite fmap_imap.
  rewrite (imap_ext _ (const id)) by done.
  by rewrite imap_const, list_fmap_id.
Qed.

Lemma mixture_pool_submseteq words ratios :
  mixture_pool words ratios ⊆+ enumerate words.
Proof. apply sublist_submseteq, sublist_filter. Qed.

Lemma elem_of_mixture_pool words ratios r :
  r ∈ mixture_pool words ratios ↔
  words !! r.1 = Some r.2 ∧ label r.2 ∈ ratios.*1.
Proof.
  unfold mixture_pool. rewrite list_elem_of_filter.
  destruct r as [i w]. rewrite elem_of_enumerate. simpl. tauto.
Qed.

Lemma elem_of_bucket pool lbl r :
  r ∈ bucket pool lbl ↔ label r.2 = lbl ∧ r ∈ pool.
Proof. unfold bucket. by rewrite list_elem_of_filter. Qed.


(** The loop appends one sample per dict item, in order. *)
Lemma mixture_loop_parts pool items result t :
  ∃ parts, (mixture_loop pool items result t).1 = result ++ concat parts
           ∧ Forall2 (is_sample pool) items parts.
Proof.
  revert result t. induction items as [|[lbl ratio] items IH]; intros result t.
  { exists []. simpl. by rewrite app_nil_r. }
  simpl. unfold rbind.
  destruct (sample _ _ t) as [s t1] eqn:Hs.
  destruct (IH (result ++ s) t1) as (parts & Hout & Hparts).
  exists (s :: parts). split.
  - rewrite Hout. simpl. by rewrite app_assoc.
  - constructor; [|done]. split.
    + replace s with (sample (bucket pool lbl)
        (Z.to_nat (Z.min (Z.of_nat (length (bucket pool lbl)))
                         (mixture_count pool ratio))) t).1 by (by rewrite Hs).
      apply sample_submseteq.
    + replace s with (sample (bucket pool lbl)
        (Z.to_nat (Z.min (Z.of_nat (length (bucket pool lbl)))
                         (mixture_count pool ratio))) t).1 by (by rewrite Hs).
      apply sample_length. unfold sample_size. simpl. lia.
Qed.


(** Buckets of distinct labels are disjoint, so the samples together are a
    sub-multiset of the pool. *)
Lemma parts_submseteq pool items parts :
  Forall2 (is_sample pool) items parts → NoDup items.*1 →
  concat parts ⊆+ filter (λ r, label r.2 ∈ items.*1) pool.
Proof.
  induction 1 as [|[lbl ratio] s items parts [Hs _] _ IH]; intros Hnd.
  { apply submseteq_nil_l. }
  apply NoDup_cons in Hnd as [Hlbl Hnd]. simpl.
  rewrite <-(filter_app_complement (λ r : Ref, label r.2 = lbl)
               (filter _ pool)).
  apply submseteq_app.
  - rewrite list_filter_filter.
    rewrite (list_filter_iff _ (λ r : Ref, label r.2 = lbl)); [done|].
    intros r. simpl. rewrite elem_of_cons. tauto.
  - rewrite list_filter_filter.
    rewrite (list_filter_iff _ (λ r : Ref, label r.2 ∈ items.*1)); [by apply IH|].
    intros r. simpl in *. rewrite elem_of_cons. split.
    + by intros [? [?|?]].
    + intros Hr. split; [|by right]. intros Heq. by rewrite Heq in Hr.
Qed.



(** What [select_random_mixture] returns, up to the final shuffle. *)
Lemma select_random_mixture_parts words ratios t :
  ∃ parts, (select_random_mixture words ratios t).1 ≡ₚ concat parts
           ∧ Forall2 (is_sample (mixture_pool words ratios)) ratios parts.
Proof.
  unfold select_random_mixture, rbind.
  destruct (mixture_loop_parts (mixture_pool words ratios) ratios [] t)
    as (parts & Hout & Hparts).
  destruct (mixture_loop _ _ _ t) as [result t1]. simpl in Hout. subst result.
  exists parts. split; [|done]. apply shuffle_Permutation.
Qed.

Lemma select_random_mixture_submseteq words ratios t :
  NoDup ratios.*1 →
  (select_random_mixture words ratios t).1 ⊆+ mixture_pool words ratios.
Proof.
  intros Hnd.
  destruct (select_random_mixture_parts words ratios t) as (parts & -> & Hparts).
  etrans; [by apply parts_submseteq|]. apply sublist_submseteq, sublist_filter.
Qed.

End MixtureFacts.

(** ** Claims about Stage A *)

Example select_random_mixture_demo :
  select_random_mixture demo_words default_ratios demo_tape
  = ([(2%nat, hus); (3%nat, bord); (1%nat, katt); (0%nat, hund)], [6%nat]).
Proof. by vm_compute. Qed.

Lemma default_ratios_NoDup : NoDup default_ratios.*1.
Proof. by apply (bool_decide_unpack _); vm_compute. Qed.

Lemma filter_snd (P : Ref → Prop) (R : Item → Prop)
    `{!∀ r, Decision (P r)} `{!∀ x, Decision (R x)} (l : list Ref) :
  (∀ r, P r ↔ R r.2) → (filter P l).*2 = filter R l.*2.
Proof.
  intros HPR. induction l as [|r l IH]; [done|]. rewrite fmap_cons.
  destruct (decide (P r)) as [HP|HP].
  - rewrite !filter_cons_True by (done || by apply HPR).
    by rewrite fmap_cons, IH.
  - rewrite !filter_cons_False by (done || by rewrite <-HPR). done.
Qed.

(** The pool and its buckets, counted on [words]. *)
Lemma mixture_pool_length words ratios :
  length (mixture_pool words ratios)
  = length (filter (λ x, label x ∈ ratios.*1) words).
Proof.
  trans (length (mixture_pool words ratios).*2); [by rewrite length_fmap|].
  unfold mixture_pool.
  rewrite (filter_snd _ (λ x, label x ∈ ratios.*1)) by done.
  by rewrite enumerate_snd.
Qed.

Lemma bucket_length words ratios L :
  L ∈ ratios.*1 →
  length (bucket (mixture_pool words ratios) L)
  = length (filter (λ x, label x = L) words).
Proof.
  intros HL.
  trans (length (bucket (mixture_pool words ratios) L).*2); [by rewrite length_fmap|].
  unfold bucket, mixture_pool.
  rewrite list_filter_filter.
  rewrite (filter_snd _ (λ x, label x = L ∧ label x ∈ ratios.*1)) by done.
  rewrite enumerate_snd. f_equal. apply list_filter_iff. intros x. split; [by intros [? _]|].
  intros Hx. split; [done|]. by rewrite Hx.
Qed.

(** Two products of line 58.  50 words at 0.58 give 28, where the product
    of 50 and the decimal 0.58 is 29; 5 words at 0.6 give 3, where the exact
    product of 5 and the double nearest to 0.6 is below 3. *)
Example float_mul_rounds :
  int_of (float_mul (float_of_int 50) (round64 (58 # 100))) = 28
  ∧ int_of (float_mul (float_of_int 5) (round64 (6 # 10))) = 3
  ∧ Qfloor (inject_Z 50 * (58 # 100)) = 29
  ∧ Qfloor (inject_Z 5 * round64 (6 # 10)) = 2.
Proof. by vm_compute. Qed.

(** The same products in the Standard Library's [spec_float]. *)
Example float_mul_is_SFmul :
  SF_value (S754_finite false 5224175567749775 (-53)) == round64 (58 # 100)
  ∧ SF_value (binary_normalize 53 1024 50 0 false) == float_of_int 50
  ∧ SF_value (SFmul 53 1024 (binary_normalize 53 1024 50 0 false)
                    (S754_finite false 5224175567749775 (-53)))
    == float_mul (float_of_int 50) (round64 (58 # 100))
  ∧ SF_value (S754_finite false 5404319552844595 (-53)) == round64 (6 # 10)
  ∧ SF_value (SFmul 53 1024 (binary_normalize 53 1024 5 0 false)
                    (S754_finite false 5404319552844595 (-53)))
    == float_mul (float_of_int 5) (round64 (6 # 10))
  ∧ SF_value (SFmul 53 1024 (binary_normalize 53 1024 7 0 false)
                    (S754_finite false 7205759403792794 (-57)))
    == float_mul (float_of_int 7) (round64 (5 # 100)).
Proof. repeat split; by apply Qeq_bool_eq; vm_compute. Qed.

(** The product of line 58 against the library's [SFmul], for every length up
    to 300 and the doubles nearest to 0.6, 0.2, 0.15, 0.05, 0.58, 0.01,
    0.99, 1.0 and 0.33. *)
Example float_mul_agrees_with_SFmul :
  forallb (λ n,
    forallb (λ w,
      Qeq_bool (SF_value (SFmul 53 1024 (binary_normalize 53 1024 (Z.of_nat n) 0 false) w))
               (float_mul (float_of_int (Z.of_nat n)) (SF_value w)))
      [S754_finite false 5404319552844595 (-53);
       S754_finite false 7205759403792794 (-55);
       S754_finite false 5404319552844595 (-55);
       S754_finite false 7205759403792794 (-57);
       S754_finite false 5224175567749775 (-53);
       S754_finite false 5764607523034235 (-59);
       S754_finite false 8917127262193582 (-53);
       S754_finite false 4503599627370496 (-52);
       S754_finite false 5944751508129055 (-54)])
    (seq 0 301) = true.
Proof. by vm_compute. Qed.



(** C9 (candidates are distinct and come from the pool).  For a dict
    [ratios], no entry of [words] occurs twice among the candidates; when the
    entries of [words] are pairwise distinct, no two candidates are equal;
    and every candidate is an entry of [words] whose label is a key of
    [ratios]. *)
Theorem mixture_candidates_distinct (words : list Item) (ratios : Ratios)
    (tape : list nat) :
  NoDup ratios.*1 →
  let candidates := (select_random_mixture words ratios tape).1 in
  NoDup candidates.*1
  ∧ (NoDup words → NoDup candidates.*2)
  ∧ ∀ r, r ∈ candidates → words !! r.1 = Some r.2 ∧ label r.2 ∈ ratios.*1.
Proof.
  intros Hnd candidates.
  pose proof (select_random_mixture_submseteq words ratios tape Hnd) as Hsub.
  fold candidates in Hsub.
  assert (candidates ⊆+ enumerate words) as Hall
    by (etrans; [done|apply mixture_pool_submseteq]).
  split; [|split].
  - eapply submseteq_NoDup; [by apply fmap_submseteq|].
    rewrite enumerate_fst. apply NoDup_seq.
  - intros Hw. eapply submseteq_NoDup; [by apply fmap_submseteq|].
    by rewrite enumerate_snd.
  - intros r Hr. apply elem_of_mixture_pool. by eapply elem_of_submseteq.
Qed.

Lemma mixture_candidates_distinct_witness :
  NoDup default_ratios.*1 ∧
  (NoDup (select_random_mixture demo_words default_ratios demo_tape).1.*1
   ∧ (NoDup demo_words →
      NoDup (select_random_mixture demo_words default_ratios demo_tape).1.*2)
   ∧ ∀ r, r ∈ (select_random_mixture demo_words default_ratios demo_tape).1 →
          demo_words !! r.1 = Some r.2 ∧ label r.2 ∈ default_ratios.*1).
Proof.
  split; [by apply (bool_decide_unpack _); vm_compute|].
  apply (mixture_candidates_distinct demo_words default_ratios demo_tape).
  by apply (bool_decide_unpack _); vm_compute.
Defined.

(** ** The vocabulary store *)

Lemma fill_defaults_to_json (w : Item) : fill_defaults (to_json w) = w.
Proof. by destruct w. Qed.

Lemma fill_defaults_to_json_list (ws : list Item) :
  fill_defaults <$> (to_json <$> ws) = ws.
Proof.
  rewrite <-list_fmap_compose. rewrite <-(list_fmap_id ws) at 2.
  apply list_fmap_ext. intros _ w _. apply fill_defaults_to_json.
Qed.

Lemma to_json_fill_defaults (raw : list RawItem) :
  normalized raw → to_json <$> (fill_defaults <$> raw) = raw.
Proof.
  induction 1 as [|r raw [[l Hl] [n Hn]] _ IH]; [done|].
  rewrite !fmap_cons, IH. f_equal.
  destruct r; simpl in *. by subst.
Qed.

Lemma load_words_save (ws : list Item) (fs : Store) :
  load_words (save_words ws fs) = (ws, save_words ws (save_words ws fs)).
Proof. unfold load_words. simpl. by rewrite fill_defaults_to_json_list. Qed.

Lemma load_words_twice (fs : Store) :
  (load_words (load_words fs).2).1 = (load_words fs).1.
Proof.
  destruct (file fs) as [raw|] eqn:Hf.
  - assert (load_words fs
            = (fill_defaults <$> raw, save_words (fill_defaults <$> raw) fs)) as ->
      by (unfold load_words; by rewrite Hf).
    cbn [fst snd]. by rewrite load_words_save.
  - assert (load_words fs = ([], fs)) as Hl by (unfold load_words; by rewrite Hf).
    rewrite Hl. simpl. by rewrite Hl.
Qed.

Lemma load_words_file (fs : Store) :
  file (load_words fs).2
  = match file fs with
    | Some raw => Some (to_json <$> (fill_defaults <$> raw))
    | None => None
    end.
Proof. unfold load_words. by destruct (file fs) eqn:Hf. Qed.

Example ascii_lower_demo : ascii_lower "Hund" = "hund".
Proof. reflexivity. Qed.



Section StoreFacts.
Variable str_lower : string → string.

Lemma existsb_same_key (k : string) (words : list Item) :
  existsb (λ w, same_key str_lower (swedish w) k) words = true
  ↔ has_key str_lower k words.
Proof.
  rewrite existsb_exists. unfold has_key. split.
  - intros (w & Hw & Hk). exists w. split; [by apply list_elem_of_In|].
    by apply bool_decide_eq_true in Hk.
  - intros (w & Hw & Hk). exists w. split; [by apply list_elem_of_In|].
    by apply bool_decide_eq_true.
Qed.

Lemma word_exists_eq (k : string) (fs : Store) :
  word_exists str_lower k fs
  = (existsb (λ w, same_key str_lower (swedish w) k) (load_words fs).1,
     (load_words fs).2).
Proof. unfold word_exists. by destruct (load_words fs). Qed.

Lemma add_word_eq (k en cat : string) (fs : Store) :
  add_word str_lower k en cat fs
  = if existsb (λ w, same_key str_lower (swedish w) k) (load_words fs).1
    then (false, (load_words fs).2)
    else (true, save_words ((load_words fs).1 ++ [mkItem k en cat "0%" 0])
                           (load_words (load_words fs).2).2).
Proof.
  unfold add_word. rewrite word_exists_eq.
  destruct (existsb _ _); [done|].
  pose proof (load_words_twice fs) as Htwice.
  destruct (load_words (load_words fs).2) as [ws fs2]. simpl in Htwice.
  by subst ws.
Qed.

Lemma add_word_found (k en cat : string) (fs : Store) :
  has_key str_lower k (load_words fs).1 →
  add_word str_lower k en cat fs = (false, (load_words fs).2).
Proof.
  intros Hk%existsb_same_key. by rewrite add_word_eq, Hk.
Qed.

Lemma add_word_fresh (k en cat : string) (fs : Store) :
  ¬ has_key str_lower k (load_words fs).1 →
  add_word str_lower k en cat fs
  = (true, save_words ((load_words fs).1 ++ [mkItem k en cat "0%" 0])
                      (load_words (load_words fs).2).2).
Proof.
  intros Hk. rewrite add_word_eq.
  destruct (existsb _ _) eqn:He; [|done].
  by apply existsb_same_key in He.
Qed.

(** After [add_word] the key is in the vocabulary, whether it was added by
    this call or was there before. *)
Lemma add_word_has_key (k en cat : string) (fs : Store) :
  has_key str_lower k (load_words (add_word str_lower k en cat fs).2).1.
Proof.
  rewrite add_word_eq.
  destruct (existsb _ _) eqn:He; cbn [snd].
  - rewrite load_words_twice. by apply existsb_same_key.
  - rewrite load_words_save. cbn [fst].
    exists (mkItem k en cat "0%" 0). split; [|done].
    apply elem_of_app. right. by left.
Qed.

End StoreFacts.

Section StoreClaims.
Variable str_lower : string → string.

(** C4 (duplicate add), as the code has it.  When some entry has the key [k]
    up to case, [add_word] returns [False] and adds nothing: the store is
    left as [load_words] leaves it, so the vocabulary read back is the same
    and the file contents are the same whenever no stored entry lacked
    [label] or [seen].  When no entry has the key, the entry is appended, a
    second [add_word] with a key equal up to case returns [False], and
    exactly one entry has that key.  In both cases keys that were pairwise
    distinct up to case remain so. *)
Theorem add_word_no_duplicate (fs : Store) (k en cat : string) :
  let r := add_word str_lower k en cat fs in
  let before := (load_words fs).1 in
  let after := (load_words r.2).1 in
  (has_key str_lower k before →
     r.1 = false ∧ r.2 = (load_words fs).2 ∧ after = before
     ∧ ∀ raw, file fs = Some raw → normalized raw → file r.2 = file fs)
  ∧ (¬ has_key str_lower k before →
     r.1 = true ∧ after = before ++ [mkItem k en cat "0%" 0]
     ∧ ∀ k' en' cat', str_lower k' = str_lower k →
         let r' := add_word str_lower k' en' cat' r.2 in
         r'.1 = false ∧ (load_words r'.2).1 = after
         ∧ length (filter (λ w, str_lower (swedish w) = str_lower k)
                          (load_words r'.2).1) = 1%nat)
  ∧ (NoDup ((λ w, str_lower (swedish w)) <$> before) →
     NoDup ((λ w, str_lower (swedish w)) <$> after)).
Proof.
  intros r before after.
  assert (has_key str_lower k before → after = before) as Hsame.
  { intros Hk. unfold after, r. rewrite add_word_found by done.
    apply load_words_twice. }
  assert (¬ has_key str_lower k before →
          after = before ++ [mkItem k en cat "0%" 0]) as Hnew.
  { intros Hk. unfold after, r. rewrite add_word_fresh by done.
    cbn [snd]. by rewrite load_words_save. }
  split; [|split].
  - intros Hk. unfold r at 1 2 3. rewrite add_word_found by done.
    split; [done|]. split; [done|]. split; [by apply Hsame|].
    intros raw Hf Hnorm. cbn [snd]. rewrite load_words_file, Hf.
    by rewrite to_json_fill_defaults.
  - intros Hk. split; [unfold r; by rewrite add_word_fresh|].
    split; [by apply Hnew|].
    intros k' en' cat' Hk' r'.
    assert (has_key str_lower k' (load_words r.2).1) as Hhas.
    { destruct (add_word_has_key str_lower k en cat fs) as (w & Hw & Hwk).
      exists w. split; [done|]. by rewrite Hk'. }
    unfold r'. rewrite add_word_found by done. cbn [fst snd].
    split; [done|]. rewrite load_words_twice. split; [done|].
    fold after. rewrite Hnew by done. rewrite filter_app, length_app.
    rewrite filter_none.
    + by rewrite filter_cons_True.
    + intros w Hw Hwk. apply Hk. by exists w.
  - intros Hnd.
    destruct (existsb (λ w, same_key str_lower (swedish w) k) before) eqn:He.
    + apply existsb_same_key in He. by rewrite Hsame.
    + assert (¬ has_key str_lower k before) as Hk.
      { intros Hk%existsb_same_key. congruence. }
      rewrite Hnew by done. rewrite fmap_app. apply NoDup_app.
      split; [done|]. split; [|apply NoDup_singleton].
      intros x Hx Hx'. apply list_elem_of_singleton in Hx'. subst x.
      apply list_elem_of_fmap in Hx as (w & Hw & Hin).
      apply Hk. by exists w.
Qed.

End StoreClaims.

Lemma add_word_no_duplicate_witness :
  has_key ascii_lower "hund" (load_words legacy_store).1
  ∧ (add_word ascii_lower "hund" "dog" "pets" legacy_store).1 = false
  ∧ (load_words (add_word ascii_lower "hund" "dog" "pets" legacy_store).2).1
    = (load_words legacy_store).1.
Proof.
  assert (has_key ascii_lower "hund" (load_words legacy_store).1) as Hk.
  { exists (mkItem "Hund" "dog" "animals" "0%" 0). split; [left|reflexivity]. }
  split; [exact Hk|].
  destruct (add_word_no_duplicate ascii_lower legacy_store "hund" "dog" "pets")
    as [Hdup _].
  destruct (Hdup Hk) as (Hfalse & _ & Hsame & _).
  split; [exact Hfalse|exact Hsame].
Defined.

(** The literal reading of C4 fails: on a file whose entries lack [label] or
    [seen], a duplicate add returns [False] and yet the file has changed,
    because [word_exists] goes through [load_words]. *)
Lemma add_word_duplicate_rewrites_file :
  has_key ascii_lower "hund" (load_words legacy_store).1
  ∧ (add_word ascii_lower "hund" "dog" "pets" legacy_store).1 = false
  ∧ file (add_word ascii_lower "hund" "dog" "pets" legacy_store).2
    ≠ file legacy_store.
Proof.
  split.
  { exists (mkItem "Hund" "dog" "animals" "0%" 0). split; [left|reflexivity]. }
  split; [reflexivity|].
  vm_compute. intros [=].
Qed.

Example add_Hund_then_hund :
  let r1 := add_word ascii_lower "Hund" "dog" "animals" no_store in
  let r2 := add_word ascii_lower "hund" "dog" "pets" r1.2 in
  r1.1 = true ∧ r2.1 = false
  ∧ file r2.2 = Some [mkRaw "Hund" "dog" "animals" (Some "0%") (Some 0)].
Proof. by vm_compute. Qed.

(** ** The bulk update *)

Section BulkFacts.
Implicit Types (f : BulkForm) (words ws : list Item).

(** What the loop body of lines 269-270 does to one entry. *)
Lemma bulk_step_lookup f ws idx i :
  alter (set_seen (new_seen_value f)) idx
        (alter (set_label (new_bulk_label f)) idx ws) !! i
  = if decide (idx = i)
    then (λ w, set_seen (new_seen_value f) (set_label (new_bulk_label f) w)) <$> ws !! i
    else ws !! i.
Proof.
  case_decide as Hi.
  - subst idx. rewrite !list_lookup_alter_eq. by destruct (ws !! i).
  - by rewrite !list_lookup_alter_ne.
Qed.

Lemma bulk_loop_lookup f indices ws i :
  foldl (λ ws idx,
           alter (set_seen (new_seen_value f)) idx
                 (alter (set_label (new_bulk_label f)) idx ws)) ws indices !! i
  = if decide (i ∈ indices)
    then (λ w, set_seen (new_seen_value f) (set_label (new_bulk_label f) w)) <$> ws !! i
    else ws !! i.
Proof.
  revert ws. induction indices as [|idx indices IH]; intros ws.
  { cbn [foldl]. by rewrite decide_False by apply not_elem_of_nil. }
  cbn [foldl]. rewrite IH, bulk_step_lookup.
  destruct (decide (idx = i)) as [->|Hne].
  - rewrite (decide_True (P := i ∈ i :: indices)) by left.
    case_decide; [|done]. by destruct (ws !! i).
  - destruct (decide (i ∈ indices)) as [Hin|Hin].
    + by rewrite decide_True by (by right).
    + rewrite decide_False; [done|].
      rewrite not_elem_of_cons. split; [congruence|done].
Qed.

Lemma bulk_loop_length f indices ws :
  length (foldl (λ ws idx,
           alter (set_seen (new_seen_value f)) idx
                 (alter (set_label (new_bulk_label f)) idx ws)) ws indices)
  = length ws.
Proof.
  revert ws. induction indices as [|idx indices IH]; intros ws; [done|].
  cbn [foldl]. by rewrite IH, !length_alter.
Qed.

Lemma elem_of_selected_indices f words i :
  i ∈ selected_indices f words
  ↔ ∃ w, words !! i = Some w ∧ eligible f w = true ∧ checked f i = true.
Proof.
  unfold selected_indices. rewrite list_elem_of_fmap. split.
  - intros ([j w] & -> & Hin). apply list_elem_of_filter in Hin as [[He Hc] Hin].
    apply elem_of_enumerate in Hin. by exists w.
  - intros (w & Hw & He & Hc). exists (i, w). split; [done|].
    apply list_elem_of_filter. split; [done|]. by apply elem_of_enumerate.
Qed.

End BulkFacts.



(** The scenario of the specification, run. *)
Example bulk_update_first_only :
  (apply_bulk_update bulk_demo_form
     (selected_indices bulk_demo_form bulk_demo_words) bulk_demo_words no_store).1
  = [mkItem "a" "x" "c" "100%" 7; mkItem "b" "y" "c" "50%" 9].
Proof. by vm_compute. Qed.

(** ** The draw handlers *)

Lemma parts_elem_of_pool pool items parts r :
  Forall2 (is_sample pool) items parts → r ∈ concat parts → r ∈ pool.
Proof.
  induction 1 as [|it s items parts [Hs _] _ IH]; simpl.
  { by intros ?%elem_of_nil. }
  rewrite elem_of_app. intros [Hr|Hr]; [|by apply IH].
  eapply elem_of_submseteq in Hr; [|done].
  by apply elem_of_bucket in Hr as [_ ?].
Qed.

Lemma select_random_mixture_elem words ratios t r :
  r ∈ (select_random_mixture words ratios t).1 → r ∈ mixture_pool words ratios.
Proof.
  destruct (select_random_mixture_parts words ratios t) as (parts & -> & Hparts).
  by apply parts_elem_of_pool with ratios.
Qed.

Lemma available_words_eq field words ratios rs t :
  available_words field words ratios rs t
  = (not_recently_seen field rs (select_random_mixture words ratios t).1,
     (select_random_mixture words ratios t).2).
Proof.
  unfold available_words, rbind. by destruct (select_random_mixture _ _ t).
Qed.

Lemma elem_of_available_words field words ratios rs t r :
  r ∈ (available_words field words ratios rs t).1
  ↔ rs !! field r.2 = None ∧ r ∈ (select_random_mixture words ratios t).1.
Proof.
  rewrite available_words_eq. cbn [fst]. unfold not_recently_seen.
  by rewrite list_elem_of_filter.
Qed.

Lemma elem_of_filtered_words c words r :
  r ∈ filtered_words c words
  ↔ words !! r.1 = Some r.2 ∧ Some (category r.2) = c.
Proof.
  unfold filtered_words. rewrite list_elem_of_filter.
  destruct r as [i w]. rewrite elem_of_enumerate. simpl. tauto.
Qed.

(** Every reference a handler can draw points at the entry it was read from. *)
Lemma drawable_valid p now words ss t r :
  r ∈ (drawable p now words ss t).1 → words !! r.1 = Some r.2.
Proof.
  destruct p as [d|c]; simpl.
  - intros [_ Hr%select_random_mixture_elem]%elem_of_available_words.
    by apply elem_of_mixture_pool in Hr as [? _].
  - unfold rret. cbn [fst]. by intros [? _]%elem_of_filtered_words.
Qed.

Lemma draw_word_pick field now available words ss fs tape :
  available ≠ [] →
  ∃ j sel t1,
    (j < length available)%nat
    ∧ randbelow (length available) tape = (j, t1)
    ∧ available !! j = Some sel
    ∧ draw_word field now available words ss fs tape
      = mkOutcome (alter incr_seen sel.1 words)
          (mkSession (<[field sel.2 := now]> (recently_seen ss)) (ratios ss)
                     (alter incr_seen sel.1 words !! sel.1) false)
          (save_words (alter incr_seen sel.1 words) fs) t1 [].
Proof.
  destruct available as [|x l]; [done|]. intros _.
  unfold draw_word.
  destruct (choice_spec x l tape) as (j & Hj & Hr & Hsel).
  destruct (choice x l tape) as [sel t1]. cbn [fst snd] in *.
  by exists j, sel, t1.
Qed.

Lemma draw_from_category_pick filtered words ss fs tape :
  filtered ≠ [] →
  ∃ j sel t1,
    (j < length filtered)%nat
    ∧ randbelow (length filtered) tape = (j, t1)
    ∧ filtered !! j = Some sel
    ∧ draw_from_category filtered words ss fs tape
      = mkOutcome (alter incr_seen sel.1 words)
          (mkSession (recently_seen ss) (ratios ss)
                     (alter incr_seen sel.1 words !! sel.1) false)
          (save_words (alter incr_seen sel.1 words) fs) t1 [].
Proof.
  destruct filtered as [|x l]; [done|]. intros _.
  unfold draw_from_category.
  destruct (choice_spec x l tape) as (j & Hj & Hr & Hsel).
  destruct (choice x l tape) as [sel t1]. cbn [fst snd] in *.
  by exists j, sel, t1.
Qed.

(** [+= 1] through an alias changes one entry of [words] and nothing else. *)
Lemma alter_incr_seen_lookup (words : list Item) (i : nat) (w : Item) :
  words !! i = Some w →
  alter incr_seen i words !! i
  = Some (mkItem (swedish w) (english w) (category w) (label w) (seen w + 1)).
Proof. intros Hw. by rewrite list_lookup_alter_eq, Hw. Qed.

Section RunFacts.
Variable str_lower : string → string.
Variable ADMIN_PASSWORD : string.

Lemma main_draw_menu p show now ss fs tape :
  main str_lower ADMIN_PASSWORD (draw_menu p show) now ss fs tape
  = after_show show
      match p with
      | Mixture d =>
          draw_word (exposure d) now
            (drawable p now (load_words fs).1 ss tape).1 (load_words fs).1
            (prune_session now ss) (load_words fs).2
            (drawable p now (load_words fs).1 ss tape).2
      | Category c =>
          draw_from_category
            (drawable p now (load_words fs).1 ss tape).1 (load_words fs).1
            ss (load_words fs).2 tape
      end.
Proof.
  unfold main. destruct (load_words fs) as [words fs1]. cbn [fst snd].
  destruct p as [[]|c]; cbn [draw_menu mixture_menu drawable exposure]; try done.
  - unfold mixture_page. cbn [prune_session recently_seen ratios].
    by destruct (available_words _ _ _ _ tape).
  - unfold mixture_page. cbn [prune_session recently_seen ratios].
    by destruct (available_words _ _ _ _ tape).
Qed.

(** The same page rendered without pressing the draw button. *)
Lemma main_mixture_idle d show now ss fs tape :
  main str_lower ADMIN_PASSWORD (mixture_menu d false show) now ss fs tape
  = after_show show
      (mkOutcome (load_words fs).1 (prune_session now ss) (load_words fs).2
         (drawable (Mixture d) now (load_words fs).1 ss tape).2 []).
Proof.
  unfold main. destruct (load_words fs) as [words fs1]. cbn [fst snd].
  destruct d; cbn [mixture_menu drawable exposure]; unfold mixture_page;
    cbn [prune_session recently_seen ratios];
    by destruct (available_words _ _ _ _ tape).
Qed.

End RunFacts.

Lemma show_translation_fields show ss :
  recently_seen (show_translation show ss) = recently_seen ss
  ∧ ratios (show_translation show ss) = ratios ss
  ∧ current_word (show_translation show ss) = current_word ss.
Proof.
  unfold show_translation.
  destruct (current_word ss) eqn:Hc; [|by rewrite Hc].
  by destruct (negb (reveal ss) && show).
Qed.

(** [_randbelow(n)] returns each index below [n] for exactly one residue of
    the generator's next number. *)
Lemma randbelow_onto (n j : nat) (t : list nat) :
  (j < n)%nat → randbelow n (j :: t) = (j, t).
Proof. intros Hj. unfold randbelow. by rewrite Nat.mod_small. Qed.

Lemma parts_length pool items parts :
  Forall2 (is_sample pool) items parts →
  length (concat parts) = sum_list (sample_size pool <$> items).
Proof.
  induction 1 as [|it s items parts [_ Hs] _ IH]; [done|].
  cbn [concat]. rewrite length_app, fmap_cons. cbn [sum_list]. by rewrite Hs, IH.
Qed.

(** ** What the draw takes from the generator *)

Lemma pad_add (N M : nat) (t : list nat) :
  pad (N + M) t = pad N t ++ pad M (drop N t).
Proof.
  revert t. induction N as [|N IH]; intros t; [done|].
  destruct t as [|r t]; cbn [Nat.add pad drop app]; f_equal.
  - by rewrite IH, drop_nil.
  - apply IH.
Qed.

Lemma reads_rret {A} (a : A) : reads 0 (rret a).
Proof. intros t. by split. Qed.

Lemma reads_randbelow (n : nat) : reads 1 (randbelow n).
Proof.
  intros [|r t]; (split; [done|]); intros t2; [|done].
  cbn [pad app randbelow fst]. by rewrite Nat.Div0.mod_0_l.
Qed.

Lemma reads_rbind {A B} (N M : nat) (P : A → Prop) (m : Rand A) (k : A → Rand B) :
  reads N m → (∀ t, P (m t).1) → (∀ a, P a → reads M (k a)) →
  reads (N + M) (rbind m k).
Proof.
  intros Hm HP Hk t. unfold rbind.
  destruct (Hm t) as [Hm2 Hmp]. specialize (HP t).
  destruct (m t) as [a t1]. cbn [fst snd] in *. subst t1.
  destruct (Hk a HP (drop N t)) as [Hk2 Hkp]. split.
  - by rewrite Hk2, drop_drop.
  - intros t2. rewrite pad_add, <-app_assoc, Hmp. apply Hkp.
Qed.

Lemma reads_sample {A} (pool : list A) (k : nat) :
  (k ≤ length pool)%nat → reads k (sample pool k).
Proof.
  revert pool. induction k as [|k IH]; intros pool Hk; [apply reads_rret|].
  destruct pool as [|x pool0]; [simpl in Hk; lia|].
  cbn [sample]. replace (S k) with (1 + (k + 0))%nat by lia.
  apply (reads_rbind _ _ (λ _, True)); [apply reads_randbelow|done|].
  intros j _.
  apply (reads_rbind _ _ (λ _, True)); [|done|intros; apply reads_rret].
  apply IH. rewrite length_take, length_insert. simpl in *. lia.
Qed.

Lemma reads_shuffle_from {A} (i : nat) (x : list A) : reads i (shuffle_from i x).
Proof.
  revert x. induction i as [|i IH]; intros x; [apply reads_rret|].
  cbn [shuffle_from]. change (S i) with (1 + i)%nat at 1.
  apply (reads_rbind _ _ (λ _, True)); [apply reads_randbelow|done|].
  intros j _. apply IH.
Qed.

Lemma sample_size_le pool it : (sample_size pool it ≤ length (bucket pool it.1))%nat.
Proof. unfold sample_size. lia. Qed.

Lemma reads_mixture_loop pool items result :
  reads (sum_list (sample_size pool <$> items)) (mixture_loop pool items result).
Proof.
  revert result. induction items as [|[lbl ratio] items IH]; intros result;
    [apply reads_rret|].
  cbn [mixture_loop]. cbn zeta. rewrite fmap_cons. cbn [sum_list].
  apply (reads_rbind _ _ (λ _, True)); [|done|intros; apply IH].
  apply (reads_sample _ (sample_size pool (lbl, ratio))), sample_size_le.
Qed.

Lemma mixture_loop_length pool items result t :
  length (mixture_loop pool items result t).1
  = (length result + sum_list (sample_size pool <$> items))%nat.
Proof.
  destruct (mixture_loop_parts pool items result t) as (parts & -> & Hparts).
  by rewrite length_app, (parts_length pool items parts).
Qed.

(** Stages A and B take a number of values from the generator that the
    vocabulary and the mixture fix. *)
Lemma reads_available_words field words ratios rs :
  ∃ N, reads N (available_words field words ratios rs).
Proof.
  set (size := sum_list (sample_size (mixture_pool words ratios) <$> ratios)).
  exists (size + (size - 1) + 0)%nat. unfold available_words.
  apply (reads_rbind _ _ (λ _, True)); [|done|intros; apply reads_rret].
  unfold select_random_mixture.
  apply (reads_rbind _ _ (λ res, length res = size));
    [apply reads_mixture_loop|intros t; apply mixture_loop_length|].
  intros res <-. apply reads_shuffle_from.
Qed.

(** The handlers draw the entry whose position the generator names. *)
Lemma draw_word_at field now available words ss fs k sel t :
  available !! k = Some sel →
  draw_word field now available words ss fs (k :: t)
  = mkOutcome (alter incr_seen sel.1 words)
      (mkSession (<[field sel.2 := now]> (recently_seen ss)) (ratios ss)
                 (alter incr_seen sel.1 words !! sel.1) false)
      (save_words (alter incr_seen sel.1 words) fs) t [].
Proof.
  intros Hk.
  assert (available ≠ []) as Hne by (by destruct available).
  destruct (draw_word_pick field now available words ss fs (k :: t) Hne)
    as (j & sel' & t1 & Hj & Hr & Hsel & ->).
  rewrite randbelow_onto in Hr by (by eapply lookup_lt_Some).
  injection Hr as <- <-. rewrite Hk in Hsel. by injection Hsel as <-.
Qed.

Lemma draw_from_category_at filtered words ss fs k sel t :
  filtered !! k = Some sel →
  draw_from_category filtered words ss fs (k :: t)
  = mkOutcome (alter incr_seen sel.1 words)
      (mkSession (recently_seen ss) (ratios ss)
                 (alter incr_seen sel.1 words !! sel.1) false)
      (save_words (alter incr_seen sel.1 words) fs) t [].
Proof.
  intros Hk.
  assert (filtered ≠ []) as Hne by (by destruct filtered).
  destruct (draw_from_category_pick filtered words ss fs (k :: t) Hne)
    as (j & sel' & t1 & Hj & Hr & Hsel & ->).
  rewrite randbelow_onto in Hr by (by eapply lookup_lt_Some).
  injection Hr as <- <-. rewrite Hk in Hsel. by injection Hsel as <-.
Qed.

Section DrawClaims.
Variable str_lower : string → string.
Variable ADMIN_PASSWORD : string.

(** C5 (successful mixture draw).  When the drawable set of a mixture page is
    not empty and the draw button is pressed, the handler takes the entry at
    the index [_randbelow(len(available_words))] gives: the generator's next
    number reduced modulo the length of the list, so that the generator's
    numbers are spread evenly over the positions, and every position of the
    list is the one drawn for some state of the generator.  The entry's seen
    count goes up by one in [words], the whole of [words] is written to the
    file in one dump, and [recently_seen] gets the current time at the
    entry's Swedish term on the Swedish-to-English page and at its English
    term on the English-to-Swedish page. *)
Theorem mixture_draw_success (d : Direction) (show : bool) (now : Z)
    (ss : Session) (fs : Store) (tape : list nat) :
  let words := (load_words fs).1 in
  let av := available_words (exposure d) words (ratios ss)
                            (prune now (recently_seen ss)) tape in
  let o := main str_lower ADMIN_PASSWORD (mixture_menu d true show) now ss fs tape in
  av.1 ≠ [] →
  (∃ j sel,
    (j < length av.1)%nat
    ∧ randbelow (length av.1) av.2 = (j, out_tape o)
    ∧ av.1 !! j = Some sel
    ∧ words !! sel.1 = Some sel.2
    ∧ out_words o = alter incr_seen sel.1 words
    ∧ out_words o !! sel.1
      = Some (mkItem (swedish sel.2) (english sel.2) (category sel.2)
                     (label sel.2) (seen sel.2 + 1))
    ∧ file (out_store o) = Some (to_json <$> out_words o)
    ∧ dumps (out_store o) = (to_json <$> out_words o) :: dumps (load_words fs).2
    ∧ recently_seen (out_session o)
      = <[exposure d sel.2 := now]> (prune now (recently_seen ss))
    ∧ current_word (out_session o) = out_words o !! sel.1
    ∧ out_notices o = []
    ∧ (∀ r t, av.2 = r :: t → j = (r mod length av.1)%nat ∧ out_tape o = t))
  ∧ (∀ k sel, av.1 !! k = Some sel →
       ∃ tape',
         available_words (exposure d) words (ratios ss)
                         (prune now (recently_seen ss)) tape' = (av.1, [k])
         ∧ let o' := main str_lower ADMIN_PASSWORD (mixture_menu d true show)
                          now ss fs tape' in
           out_words o' = alter incr_seen sel.1 words
           ∧ current_word (out_session o') = alter incr_seen sel.1 words !! sel.1
           ∧ recently_seen (out_session o')
             = <[exposure d sel.2 := now]> (prune now (recently_seen ss))).
Proof.
  intros words av o Hav. split.
  - pose proof (main_draw_menu str_lower ADMIN_PASSWORD (Mixture d) show now ss fs tape)
      as Hmain.
    cbn [draw_menu drawable] in Hmain. fold words in Hmain. fold av in Hmain.
    fold o in Hmain.
    destruct (draw_word_pick (exposure d) now av.1 words (prune_session now ss)
                (load_words fs).2 av.2 Hav) as (j & sel & t1 & Hj & Hr & Hsel & Hdraw).
    rewrite Hdraw in Hmain. clear Hdraw.
    assert (words !! sel.1 = Some sel.2) as Hvalid.
    { apply (drawable_valid (Mixture d) now words ss tape).
      by eapply list_elem_of_lookup_2. }
    assert (∀ r t, av.2 = r :: t → j = (r mod length av.1)%nat ∧ t1 = t) as Hmod.
    { intros r t Ht. rewrite Ht, randbelow_head in Hr. by injection Hr as <- <-. }
    exists j, sel. rewrite Hmain. unfold after_show. cbn [out_words out_session
      out_store out_tape out_notices file dumps save_words].
    destruct (show_translation_fields show
      (mkSession (<[exposure d sel.2:=now]> (recently_seen (prune_session now ss)))
         (ratios (prune_session now ss)) (alter incr_seen sel.1 words !! sel.1) false))
      as (-> & _ & ->).
    cbn [recently_seen current_word prune_session].
    split_and!; try done. by apply alter_incr_seen_lookup.
  - intros k sel Hk.
    destruct (reads_available_words (exposure d) words (ratios ss)
                (prune now (recently_seen ss))) as [N HN].
    destruct (HN tape) as [_ Hpad]. specialize (Hpad [k]). fold av in Hpad.
    exists (pad N tape ++ [k]). split; [done|]. cbn zeta.
    pose proof (main_draw_menu str_lower ADMIN_PASSWORD (Mixture d) show now ss fs
                  (pad N tape ++ [k])) as Hmain.
    cbn [draw_menu drawable] in Hmain. fold words in Hmain.
    rewrite Hpad in Hmain. cbn [fst snd] in Hmain.
    rewrite (draw_word_at _ _ _ _ _ _ k sel []) in Hmain by done.
    rewrite Hmain. unfold after_show. cbn [out_words out_session].
    destruct (show_translation_fields show
      (mkSession (<[exposure d sel.2:=now]> (recently_seen (prune_session now ss)))
         (ratios (prune_session now ss)) (alter incr_seen sel.1 words !! sel.1) false))
      as (-> & _ & ->).
    by cbn [recently_seen current_word prune_session].
Qed.

(** C6 (exhaustion).  When the drawable set of a mixture page is empty, the
    handler of the draw button issues the warning and changes nothing: the
    run ends with [words] as loaded, the store as [load_words] left it and
    [recently_seen] as pruned, exactly as the same run without the button
    pressed; nothing is raised, [random.choice] is not called. *)
Theorem mixture_draw_exhausted (d : Direction) (show : bool) (now : Z)
    (ss : Session) (fs : Store) (tape : list nat) :
  let words := (load_words fs).1 in
  let av := available_words (exposure d) words (ratios ss)
                            (prune now (recently_seen ss)) tape in
  let o := main str_lower ADMIN_PASSWORD (mixture_menu d true show) now ss fs tape in
  let idle := main str_lower ADMIN_PASSWORD (mixture_menu d false show) now ss fs tape in
  av.1 = [] →
  draw_word (exposure d) now av.1 words (prune_session now ss) (load_words fs).2 av.2
  = mkOutcome words (prune_session now ss) (load_words fs).2 av.2
              [st_warning NoNewWordsAvailable]
  ∧ out_notices o = [st_warning NoNewWordsAvailable]
  ∧ out_words o = words
  ∧ seen <$> out_words o = seen <$> words
  ∧ out_store o = (load_words fs).2
  ∧ recently_seen (out_session o) = prune now (recently_seen ss)
  ∧ out_words o = out_words idle
  ∧ out_store o = out_store idle
  ∧ out_session o = out_session idle
  ∧ out_tape o = out_tape idle.
Proof.
  intros words av o idle Hav.
  pose proof (main_draw_menu str_lower ADMIN_PASSWORD (Mixture d) show now ss fs tape)
    as Hmain.
  pose proof (main_mixture_idle str_lower ADMIN_PASSWORD d show now ss fs tape)
    as Hidle.
  cbn [draw_menu drawable] in Hmain, Hidle.
  fold words in Hmain, Hidle. fold av in Hmain, Hidle.
  fold o in Hmain. fold idle in Hidle.
  rewrite Hav in Hmain. cbn [draw_word] in Hmain.
  rewrite Hmain, Hidle, Hav. unfold after_show.
  cbn [out_words out_session out_store out_tape out_notices draw_word].
  destruct (show_translation_fields show (prune_session now ss)) as (-> & _ & _).
  by repeat split.
Qed.

(** C8 (category draw).  On the category page the handler draws from exactly
    the entries of [words] whose category is the selected one, each listed
    once, at the index [_randbelow] gives: the generator's next number
    reduced modulo the length of that list, so that the generator's numbers
    are spread evenly over the entries of the category, and each of them is
    the one drawn when the generator names its position.  Neither [ratios]
    nor [recently_seen] is read or written, so the run is the same whatever
    they hold.  A draw adds one to the entry's seen count and writes [words]
    to the file; with no entry in the category the handler issues a warning
    and changes nothing. *)
Theorem category_draw (c : option string) (show : bool) (now : Z)
    (ss : Session) (fs : Store) (tape : list nat) :
  let words := (load_words fs).1 in
  let filtered := filtered_words c words in
  let o := main str_lower ADMIN_PASSWORD (FlashcardsByCategory c true show)
                now ss fs tape in
  (∀ r, r ∈ filtered ↔ words !! r.1 = Some r.2 ∧ Some (category r.2) = c)
  ∧ NoDup filtered.*1
  ∧ recently_seen (out_session o) = recently_seen ss
  ∧ ratios (out_session o) = ratios ss
  ∧ (∀ rs' ratios' now',
       let o' := main str_lower ADMIN_PASSWORD (FlashcardsByCategory c true show)
                      now' (mkSession rs' ratios' (current_word ss) (reveal ss))
                      fs tape in
       out_words o' = out_words o ∧ out_store o' = out_store o
       ∧ out_tape o' = out_tape o ∧ out_notices o' = out_notices o
       ∧ current_word (out_session o') = current_word (out_session o)
       ∧ reveal (out_session o') = reveal (out_session o)
       ∧ recently_seen (out_session o') = rs'
       ∧ ratios (out_session o') = ratios')
  ∧ (filtered = [] →
       out_notices o = [st_warning NoWordsInThisCategory]
       ∧ out_words o = words ∧ out_store o = (load_words fs).2
       ∧ out_tape o = tape ∧ out_session o = show_translation show ss)
  ∧ (filtered ≠ [] →
       ∃ j sel,
         (j < length filtered)%nat
         ∧ randbelow (length filtered) tape = (j, out_tape o)
         ∧ filtered !! j = Some sel
         ∧ out_words o = alter incr_seen sel.1 words
         ∧ out_words o !! sel.1
           = Some (mkItem (swedish sel.2) (english sel.2) (category sel.2)
                          (label sel.2) (seen sel.2 + 1))
         ∧ file (out_store o) = Some (to_json <$> out_words o)
         ∧ dumps (out_store o) = (to_json <$> out_words o) :: dumps (load_words fs).2
         ∧ out_notices o = []
         ∧ (∀ r t, tape = r :: t →
              j = (r mod length filtered)%nat ∧ out_tape o = t))
  ∧ (∀ k sel t, filtered !! k = Some sel →
       let o' := main str_lower ADMIN_PASSWORD (FlashcardsByCategory c true show)
                      now ss fs (k :: t) in
       out_words o' = alter incr_seen sel.1 words
       ∧ out_tape o' = t
       ∧ current_word (out_session o') = alter incr_seen sel.1 words !! sel.1).
Proof.
  intros words filtered o.
  assert (∀ ss0 now0,
    main str_lower ADMIN_PASSWORD (FlashcardsByCategory c true show) now0 ss0 fs tape
    = after_show show (draw_from_category filtered words ss0 (load_words fs).2 tape))
    as Hmain.
  { intros ss0 now0.
    apply (main_draw_menu str_lower ADMIN_PASSWORD (Category c) show now0 ss0 fs tape). }
  assert (∀ k sel t, filtered !! k = Some sel →
    let o' := main str_lower ADMIN_PASSWORD (FlashcardsByCategory c true show)
                   now ss fs (k :: t) in
    out_words o' = alter incr_seen sel.1 words
    ∧ out_tape o' = t
    ∧ current_word (out_session o') = alter incr_seen sel.1 words !! sel.1)
    as Honto.
  { intros k sel t Hk. cbn zeta.
    pose proof (main_draw_menu str_lower ADMIN_PASSWORD (Category c) show now ss fs
                  (k :: t)) as Hm.
    cbn [draw_menu drawable rret fst] in Hm. fold words in Hm. fold filtered in Hm.
    rewrite (draw_from_category_at filtered words ss (load_words fs).2 k sel t)
      in Hm by done.
    rewrite Hm. unfold after_show. cbn [out_words out_session out_tape].
    destruct (show_translation_fields show
      (mkSession (recently_seen ss) (ratios ss)
         (alter incr_seen sel.1 words !! sel.1) false)) as (_ & _ & ->).
    done. }
  assert (∀ ss0, ∃ ws cw fs' t' ns,
    draw_from_category filtered words ss0 (load_words fs).2 tape
    = mkOutcome ws (mkSession (recently_seen ss0) (ratios ss0) cw
                              (if filtered is [] then reveal ss0 else false))
                fs' t' ns
    ∧ (filtered = [] → cw = current_word ss0)
    ∧ ∀ ss1, current_word ss1 = current_word ss0 → reveal ss1 = reveal ss0 →
        draw_from_category filtered words ss1 (load_words fs).2 tape
        = mkOutcome ws (mkSession (recently_seen ss1) (ratios ss1) cw
                              (if filtered is [] then reveal ss0 else false))
                    fs' t' ns) as Hshape.
  { intros ss0. unfold draw_from_category. destruct filtered as [|x l].
    - exists words, (current_word ss0), (load_words fs).2, tape,
        [st_warning NoWordsInThisCategory].
      split; [by destruct ss0|]. split; [done|].
      intros ss1 Hc Hr. destruct ss1; simpl in *. by subst.
    - destruct (choice x l tape) as [sel t1]. by eexists _, _, _, _, _. }
  split; [apply elem_of_filtered_words|]. split.
  { eapply submseteq_NoDup.
    - apply fmap_submseteq, sublist_submseteq, sublist_filter.
    - rewrite enumerate_fst. apply NoDup_seq. }
  unfold o. rewrite Hmain. unfold after_show.
  cbn [out_words out_session out_store out_tape out_notices].
  split; [|split; [|split; [|split; [|split; [|exact Honto]]]]].
  - destruct (show_translation_fields show
      (out_session (draw_from_category filtered words ss (load_words fs).2 tape)))
      as (-> & _ & _).
    destruct (Hshape ss) as (ws & cw & fs' & t' & ns & -> & _). done.
  - destruct (show_translation_fields show
      (out_session (draw_from_category filtered words ss (load_words fs).2 tape)))
      as (_ & -> & _).
    destruct (Hshape ss) as (ws & cw & fs' & t' & ns & -> & _). done.
  - intros rs' ratios' now'. rewrite Hmain. unfold after_show.
    cbn [out_words out_session out_store out_tape out_notices].
    destruct (Hshape ss) as (ws & cw & fs' & t' & ns & Heq & _ & Hother).
    rewrite Heq.
    rewrite (Hother (mkSession rs' ratios' (current_word ss) (reveal ss))) by done.
    cbn [out_words out_session out_store out_tape out_notices recently_seen ratios].
    unfold show_translation. cbn [current_word reveal recently_seen ratios].
    destruct cw; [|done]. by destruct (negb _ && show).
  - intros Hnil. rewrite Hnil. by cbn [draw_from_category out_words out_session
      out_store out_tape out_notices].
  - intros Hne.
    destruct (draw_from_category_pick filtered words ss (load_words fs).2 tape Hne)
      as (j & sel & t1 & Hj & Hr & Hsel & ->).
    cbn [out_words out_session out_store out_tape out_notices file dumps save_words].
    assert (∀ r t, tape = r :: t → j = (r mod length filtered)%nat ∧ t1 = t) as Hmod.
    { intros r t Ht. rewrite Ht, randbelow_head in Hr. by injection Hr as <- <-. }
    exists j, sel. split_and!; try done.
    apply alter_incr_seen_lookup.
    apply (drawable_valid (Category c) now words ss tape).
    by eapply list_elem_of_lookup_2.
Qed.

(** C10 (frame of a draw).  On each of the three pages with a draw button, a
    draw from a non-empty drawable set changes one entry of [words], the one
    drawn: its seen count is one higher and its other fields are as before;
    every other position holds what it held, and the list has the same
    length.  The file then holds that list. *)
Theorem draw_frame (p : DrawPage) (show : bool) (now : Z)
    (ss : Session) (fs : Store) (tape : list nat) :
  let words := (load_words fs).1 in
  let o := main str_lower ADMIN_PASSWORD (draw_menu p show) now ss fs tape in
  (drawable p now words ss tape).1 ≠ [] →
  ∃ i w,
    (i, w) ∈ (drawable p now words ss tape).1
    ∧ words !! i = Some w
    ∧ length (out_words o) = length words
    ∧ (∀ j, j ≠ i → out_words o !! j = words !! j)
    ∧ (∃ w', out_words o !! i = Some w'
             ∧ swedish w' = swedish w ∧ english w' = english w
             ∧ category w' = category w ∧ label w' = label w
             ∧ seen w' = seen w + 1)
    ∧ file (out_store o) = Some (to_json <$> out_words o).
Proof.
  intros words o Hne.
  assert (∃ j sel ss' t1,
    (drawable p now words ss tape).1 !! j = Some sel
    ∧ o = after_show show
            (mkOutcome (alter incr_seen sel.1 words) ss'
               (save_words (alter incr_seen sel.1 words) (load_words fs).2) t1 []))
    as (j & [i w] & ss' & t1 & Hsel & Ho).
  { unfold o. rewrite main_draw_menu. fold words. destruct p as [d|c].
    - destruct (draw_word_pick (exposure d) now _ words (prune_session now ss)
        (load_words fs).2 (drawable (Mixture d) now words ss tape).2 Hne)
        as (j & sel & t1 & _ & _ & Hsel & ->). by eexists j, sel, _, t1.
    - destruct (draw_from_category_pick _ words ss (load_words fs).2 tape Hne)
        as (j & sel & t1 & _ & _ & Hsel & ->). by eexists j, sel, _, t1. }
  assert ((i, w) ∈ (drawable p now words ss tape).1) as Hin
    by (by eapply list_elem_of_lookup_2).
  pose proof (drawable_valid p now words ss tape (i, w) Hin) as Hw.
  cbn [fst snd] in *.
  exists i, w. rewrite Ho. unfold after_show.
  cbn [out_words out_store file save_words].
  split; [done|]. split; [done|]. split; [apply length_alter|].
  split; [intros j' Hj'; by apply list_lookup_alter_ne|]. split; [|done].
  eexists. split; [by apply alter_incr_seen_lookup|]. done.
Qed.

End DrawClaims.

Lemma mixture_draw_success_witness :
  (available_words swedish (load_words demo_store).1 (ratios new_session)
     (prune 1000 (recently_seen new_session)) demo_tape).1 ≠ []
  ∧ out_notices (main ascii_lower "secret" (mixture_menu SwedishToEnglish true false)
                      1000 new_session demo_store demo_tape) = []
  ∧ out_words (main ascii_lower "secret" (mixture_menu SwedishToEnglish true false)
                    1000 new_session demo_store demo_tape)
    = [hund; incr_seen katt; hus; bord].
Proof.
  assert ((available_words swedish (load_words demo_store).1 (ratios new_session)
             (prune 1000 (recently_seen new_session)) demo_tape).1 ≠ []) as Hav
    by (vm_compute; discriminate).
  split; [exact Hav|].
  destruct (mixture_draw_success ascii_lower "secret" SwedishToEnglish false 1000
              new_session demo_store demo_tape Hav)
    as [(j & sel & _ & _ & Hsel & _ & Hw & _ & _ & _ & _ & _ & Hn & Hmod) _].
  split; [exact Hn|].
  destruct (Hmod 6%nat [] ltac:(vm_compute; reflexivity)) as [Hj _].
  rewrite Hj in Hsel. vm_compute in Hsel. injection Hsel as Hsel.
  rewrite Hw, <-Hsel. vm_compute. reflexivity.
Defined.

Lemma mixture_draw_exhausted_witness :
  (available_words swedish (load_words hund_store).1 (ratios cooling_session)
     (prune 1000 (recently_seen cooling_session)) demo_tape).1 = []
  ∧ out_notices (main ascii_lower "secret" (mixture_menu SwedishToEnglish true false)
                      1000 cooling_session hund_store demo_tape)
    = [st_warning NoNewWordsAvailable].
Proof.
  assert ((available_words swedish (load_words hund_store).1 (ratios cooling_session)
             (prune 1000 (recently_seen cooling_session)) demo_tape).1 = []) as Hav
    by (vm_compute; reflexivity).
  split; [exact Hav|].
  destruct (mixture_draw_exhausted ascii_lower "secret" SwedishToEnglish false 1000
              cooling_session hund_store demo_tape Hav) as (_ & Hn & _).
  exact Hn.
Defined.

Lemma category_draw_witness :
  filtered_words (Some "home") (load_words demo_store).1 ≠ []
  ∧ recently_seen (out_session
      (main ascii_lower "secret" (FlashcardsByCategory (Some "home") true false)
            1000 cooling_session demo_store demo_tape))
    = recently_seen cooling_session
  ∧ out_words
      (main ascii_lower "secret" (FlashcardsByCategory (Some "home") true false)
            1000 cooling_session demo_store demo_tape)
    = [hund; katt; hus; incr_seen bord]
  ∧ out_words
      (main ascii_lower "secret" (FlashcardsByCategory (Some "home") true false)
            1000 cooling_session demo_store [0%nat])
    = [hund; katt; incr_seen hus; bord].
Proof.
  assert (filtered_words (Some "home") (load_words demo_store).1 ≠ []) as Hne
    by (vm_compute; discriminate).
  split; [exact Hne|].
  destruct (category_draw ascii_lower "secret" (Some "home") false 1000
              cooling_session demo_store demo_tape)
    as (_ & _ & Hrs & _ & _ & _ & Hdraw & Honto).
  split; [exact Hrs|].
  destruct (Hdraw Hne) as (j & sel & _ & _ & Hsel & Hw & _ & _ & _ & _ & Hmod).
  destruct (Hmod 3%nat [1; 4; 1; 5; 9; 2; 6]%nat eq_refl) as [Hj _].
  rewrite Hj in Hsel. vm_compute in Hsel. injection Hsel as Hsel.
  split; [rewrite Hw, <-Hsel; vm_compute; reflexivity|].
  destruct (Honto 0%nat (2%nat, hus) [] eq_refl) as (Hw0 & _).
  rewrite Hw0. vm_compute. reflexivity.
Defined.

Lemma draw_frame_witness :
  (drawable (Category (Some "home")) 1000 (load_words demo_store).1
            new_session demo_tape).1 ≠ []
  ∧ ∃ i w,
      (load_words demo_store).1 !! i = Some w
      ∧ length (out_words (main ascii_lower "secret"
                  (draw_menu (Category (Some "home")) false)
                  1000 new_session demo_store demo_tape))
        = length (load_words demo_store).1.
Proof.
  assert ((drawable (Category (Some "home")) 1000 (load_words demo_store).1
             new_session demo_tape).1 ≠ []) as Hne by (vm_compute; discriminate).
  split; [exact Hne|].
  destruct (draw_frame ascii_lower "secret" (Category (Some "home")) false 1000
              new_session demo_store demo_tape Hne)
    as (i & w & _ & Hw & Hlen & _).
  exists i, w. split; [exact Hw|exact Hlen].
Defined.

Example category_draw_demo :
  let o := main ascii_lower "secret" (FlashcardsByCategory (Some "home") true false)
                1000 new_session demo_store demo_tape in
  out_words o = [hund; katt; hus; incr_seen bord]
  ∧ file (out_store o) = Some (to_json <$> [hund; katt; hus; incr_seen bord])
  ∧ recently_seen (out_session o) = ∅.
Proof. by vm_compute. Qed.

(** ** The cooldown across runs *)







Lemma prune_lookup_Some now rs key t :
  prune now rs !! key = Some t ↔ rs !! key = Some t ∧ now - t < COOLDOWN_SECONDS.
Proof. unfold prune. by rewrite map_lookup_filter_Some. Qed.




Section SessionFacts.
Variable str_lower : string → string.
Variable ADMIN_PASSWORD : string.




(** The admin panel is the only page that writes [ratios]. *)
Lemma main_ratios menu now ss fs tape :
  let o := main str_lower ADMIN_PASSWORD menu now ss fs tape in
  ratios (out_session o) = ratios ss
  ∨ ∃ ratio_input, ratios (out_session o) = adjust_ratios ratio_input (ratios ss).
Proof.
  cbn zeta. unfold main, mixture_page, category_page, add_page, admin_page,
    after_show, draw_word, draw_from_category, reset_all_labels, reset_all_seen,
    apply_bulk_update.
  destruct (load_words fs) as [words fs1].
  destruct menu; repeat case_match; cbn [out_session];
    rewrite ?(proj1 (proj2 (show_translation_fields _ _)));
    cbn [ratios prune_session]; eauto.
Qed.

Lemma dict_set_keys (k : string) (v : Q) (d : Ratios) :
  (dict_set k v d).*1 = if decide (k ∈ d.*1) then d.*1 else d.*1 ++ [k].
Proof.
  induction d as [|[k' v'] d IH]; [done|]. cbn [dict_set].
  destruct (decide (k' = k)) as [->|Hne].
  - rewrite !fmap_cons. cbn [fst]. by rewrite decide_True by left.
  - rewrite !fmap_cons, IH. cbn [fst].
    destruct (decide (k ∈ d.*1)) as [Hin|Hin].
    + by rewrite decide_True by (by right).
    + rewrite decide_False; [done|].
      rewrite not_elem_of_cons. split; [congruence|done].
Qed.

Lemma dict_set_NoDup (k : string) (v : Q) (d : Ratios) :
  NoDup d.*1 → NoDup (dict_set k v d).*1.
Proof.
  intros Hd. rewrite dict_set_keys. case_decide as Hk; [done|].
  apply NoDup_app. split; [done|]. split; [|apply NoDup_singleton].
  intros x Hx ->%list_elem_of_singleton. done.
Qed.

Lemma adjust_ratios_NoDup ratio_input (d : Ratios) :
  NoDup d.*1 → NoDup (adjust_ratios ratio_input d).*1.
Proof.
  unfold adjust_ratios. generalize LABELS. intros labels. revert d.
  induction labels as [|lbl labels IH]; intros d Hd; [done|].
  cbn [foldl]. apply IH. apply dict_set_NoDup.
  case_decide; [done|]. by apply dict_set_NoDup.
Qed.

(** In every session started from the initial state, [ratios] has pairwise
    distinct keys, as a dict has. *)
Lemma run_all_ratios_NoDup ins st :
  NoDup (ratios st.1).*1 →
  NoDup (ratios (run_all str_lower ADMIN_PASSWORD st ins).1).*1.
Proof.
  revert st. induction ins as [|i ins IH]; intros st Hst; [done|].
  unfold run_all. cbn [foldl]. apply IH. unfold step. cbn [fst].
  destruct (main_ratios (in_menu i) (in_now i) st.1 st.2 (in_tape i))
    as [->|[ri ->]]; [done|]. by apply adjust_ratios_NoDup.
Qed.

Lemma session_ratios_NoDup ins fs :
  NoDup (ratios (run_all str_lower ADMIN_PASSWORD (new_session, fs) ins).1).*1.
Proof. apply run_all_ratios_NoDup, default_ratios_NoDup. Qed.

End SessionFacts.

Lemma exposure_incr_seen d w : exposure d (incr_seen w) = exposure d w.
Proof. by destruct d. Qed.


Section CooldownClaims.
Variable str_lower : string → string.
Variable ADMIN_PASSWORD : string.


End CooldownClaims.



(** Sixty seconds before the window closes the word is withheld; one second
    after it has closed the word is drawn again. *)
Example cooldown_demo :
  let o := main ascii_lower "secret" (mixture_menu SwedishToEnglish true false)
                1000 new_session hund_store [] in
  let early := main ascii_lower "secret" (mixture_menu SwedishToEnglish true false)
                    1299 (out_session o) (out_store o) [] in
  let late := main ascii_lower "secret" (mixture_menu SwedishToEnglish true false)
                   1301 (out_session o) (out_store o) [] in
  out_notices early = [st_warning NoNewWordsAvailable]
  ∧ out_words early = [incr_seen hund]
  ∧ out_notices late = []
  ∧ out_words late = [incr_seen (incr_seen hund)].
Proof. by vm_compute. Qed.

(** * Further properties of the code *)

(** ** Stage A: size and edge cases *)

Lemma mixture_loop_no_pool items result t :
  mixture_loop [] items result t = (result, t).
Proof.
  revert result. induction items as [|[lbl ratio] items IH]; intros result.
  { done. }
  cbn [mixture_loop]. unfold rbind. cbn -[mixture_loop Z.min Z.max].
  destruct (Z.to_nat _); cbn -[mixture_loop]; by rewrite IH, app_nil_r.
Qed.

Lemma sum_list_elem_le {A} (g : A → nat) (l : list A) (x : A) :
  x ∈ l → (g x ≤ sum_list (g <$> l))%nat.
Proof.
  induction l as [|y l IH]; [by intros ?%elem_of_nil|].
  rewrite fmap_cons. intros [->|Hx]%elem_of_cons; simpl; [lia|].
  specialize (IH Hx). lia.
Qed.

Lemma mixture_pool_nil_iff words ratios :
  mixture_pool words ratios = [] ↔ ∀ w, w ∈ words → label w ∉ ratios.*1.
Proof.
  split.
  - intros Hnil w [i Hi]%list_elem_of_lookup Hl.
    assert ((i, w) ∈ mixture_pool words ratios) as Hin
      by (by apply elem_of_mixture_pool).
    rewrite Hnil in Hin. by apply elem_of_nil in Hin.
  - intros Hall. destruct (mixture_pool words ratios) as [|r pool] eqn:Hp; [done|].
    assert (r ∈ mixture_pool words ratios) as Hin by (rewrite Hp; left).
    apply elem_of_mixture_pool in Hin as [Hr Hl].
    destruct (Hall r.2); [|done]. by eapply list_elem_of_lookup_2.
Qed.

Lemma sample_size_words words ratios (it : string * Q) :
  it ∈ ratios →
  sample_size (mixture_pool words ratios) it
  = Z.to_nat (Z.min (Z.of_nat (length (filter (λ x, label x = it.1) words)))
       (Z.max 1 (int_of (float_mul
          (float_of_int (Z.of_nat (length (filter (λ x, label x ∈ ratios.*1) words))))
          it.2)))).
Proof.
  intros Hit. unfold sample_size, mixture_count.
  rewrite bucket_length by (apply list_elem_of_fmap; by exists it).
  by rewrite mixture_pool_length.
Qed.

(** Stage A proposes nothing exactly when no entry of [words] has a label
    among the keys of [ratios]; it then takes no number from the generator.
    In general it proposes, for each dict item, as many entries as line 58
    and line 59 give: the smaller of the number of words with the item's
    label and [max(1, int(len(pool) * ratio))], the product taken in
    doubles; so the sizes add up, to no more than the pool. *)
Theorem mixture_size (words : list Item) (ratios : Ratios) (tape : list nat) :
  let pool_size := length (filter (λ x, label x ∈ ratios.*1) words) in
  let size := λ it : string * Q,
    Z.to_nat (Z.min (Z.of_nat (length (filter (λ x, label x = it.1) words)))
       (Z.max 1 (int_of (float_mul (float_of_int (Z.of_nat pool_size)) it.2)))) in
  let candidates := (select_random_mixture words ratios tape).1 in
  length candidates = sum_list (size <$> ratios)
  ∧ (candidates = [] ↔ ∀ w, w ∈ words → label w ∉ ratios.*1)
  ∧ ((∀ w, w ∈ words → label w ∉ ratios.*1) →
     select_random_mixture words ratios tape = ([], tape))
  ∧ (NoDup ratios.*1 → (length candidates ≤ pool_size ≤ length words)%nat).
Proof.
  cbn zeta.
  destruct (select_random_mixture_parts words ratios tape) as (parts & Hperm & Hparts).
  assert (length (select_random_mixture words ratios tape).1
          = sum_list (sample_size (mixture_pool words ratios) <$> ratios)) as Hlen.
  { rewrite Hperm. by apply parts_length. }
  split; [|split; [|split]].
  - rewrite Hlen. f_equal. apply list_fmap_ext. intros k it Hit.
    apply sample_size_words. by eapply list_elem_of_lookup_2.
  - rewrite <-mixture_pool_nil_iff. split.
    + intros Hnil. rewrite Hnil in Hlen.
      destruct (mixture_pool words ratios) as [|r pool0] eqn:Hp; [done|]. exfalso.
      assert (r ∈ mixture_pool words ratios) as Hin by (rewrite Hp; left).
      pose proof Hin as [_ Hl]%elem_of_mixture_pool.
      apply list_elem_of_fmap in Hl as ([L w] & HL & Hit). simpl in HL.
      rewrite <-Hp in Hlen.
      assert (0 < sample_size (mixture_pool words ratios) (L, w))%nat as Hpos.
      { unfold sample_size, mixture_count. cbn [fst snd].
        assert (r ∈ bucket (mixture_pool words ratios) L) as Hb
          by (by apply elem_of_bucket).
        destruct (bucket _ L); [by apply elem_of_nil in Hb|]. simpl. lia. }
      pose proof (sum_list_elem_le (sample_size (mixture_pool words ratios))
                    ratios (L, w) Hit) as Hle.
      simpl in Hlen. lia.
    + intros Hnil.
      destruct (select_random_mixture words ratios tape).1 as [|r cs] eqn:Hc; [done|].
      exfalso.
      assert (r ∈ (select_random_mixture words ratios tape).1) as Hin
        by (rewrite Hc; left).
      apply select_random_mixture_elem in Hin.
      rewrite Hnil in Hin. by apply elem_of_nil in Hin.
  - intros Hall%mixture_pool_nil_iff.
    unfold select_random_mixture, rbind. rewrite Hall, mixture_loop_no_pool. done.
  - intros Hnd. rewrite <-mixture_pool_length. split.
    + apply submseteq_length. by apply select_random_mixture_submseteq.
    + etrans; [apply submseteq_length, mixture_pool_submseteq|].
      unfold enumerate. by rewrite length_imap.
Qed.

Lemma mixture_size_witness :
  (∀ w, w ∈ [hus] → label w ∉ [("0%", 1%Q)].*1)
  ∧ select_random_mixture [hus] [("0%", 1%Q)] demo_tape = ([], demo_tape)
  ∧ length (select_random_mixture (replicate 50 hund)
              [("0%", round64 (58 # 100))] demo_tape).1 = 28%nat
  ∧ length (select_random_mixture [hund; hund; hund; katt; katt]
              default_ratios demo_tape).1 = 3%nat.
Proof.
  assert (∀ w, w ∈ [hus] → label w ∉ [("0%", 1%Q)].*1) as Hall.
  { intros w ->%list_elem_of_singleton. vm_compute.
    intros ?%list_elem_of_singleton. discriminate. }
  split; [exact Hall|].
  destruct (mixture_size [hus] [("0%", 1%Q)] demo_tape) as (_ & _ & Hnone & _).
  split; [exact (Hnone Hall)|].
  destruct (mixture_size (replicate 50 hund) [("0%", round64 (58 # 100))] demo_tape)
    as (Hlen & _).
  split; [rewrite Hlen; by vm_compute|].
  destruct (mixture_size [hund; hund; hund; katt; katt] default_ratios demo_tape)
    as (Hlen5 & _).
  rewrite Hlen5. by vm_compute.
Defined.

Lemma sample_of_item pool items parts it :
  Forall2 (is_sample pool) items parts → it ∈ items →
  ∃ s, s ∈ parts ∧ is_sample pool it s.
Proof.
  induction 1 as [|it' s items parts Hit _ IH]; [by intros ?%elem_of_nil|].
  intros [->|Hin]%elem_of_cons.
  - exists s. split; [apply elem_of_cons; by left|done].
  - destruct (IH Hin) as (s' & ? & ?). exists s'.
    split; [apply elem_of_cons; by right|done].
Qed.

Lemma elem_of_concat {A} (x : A) (s : list A) (parts : list (list A)) :
  x ∈ s → s ∈ parts → x ∈ concat parts.
Proof.
  intros Hx. induction parts as [|s' parts IH]; [by intros ?%elem_of_nil|].
  cbn [concat]. rewrite elem_of_app.
  intros [->|Hs]%elem_of_cons; [by left|]. right. by apply IH.
Qed.

(** *** Binary64 rounding from below *)

Lemma round_half_even_ge (k : Z) (y : Q) :
  (inject_Z k <= y)%Q → k ≤ round_half_even y.
Proof.
  intros Hk. apply Qfloor_resp_le in Hk. rewrite Qfloor_Z in Hk.
  unfold round_half_even. cbn zeta.
  destruct (_ ?= _)%Q; [destruct (Z.even _)|..]; lia.
Qed.

Lemma Qpower_2_pos (q : Z) : (0 < 2 ^ q)%Q.
Proof. by apply Qpower_0_lt. Qed.

Lemma ilog2_le_0 (a : Q) : Qle_bool 1 a = false → ilog2 a ≤ 0.
Proof.
  intros Ha. unfold ilog2. rewrite Ha.
  pose proof (Z.log2_up_nonneg (Qceiling (/ a))). lia.
Qed.

(** Rounding never takes a number below an integer of at most 53 bits that
    it is not below. *)
Lemma round_magnitude_ge (n : Z) (x : Q) :
  0 ≤ n < 2 ^ 53 → (inject_Z n <= x)%Q → (inject_Z n <= round_magnitude x)%Q.
Proof.
  intros Hn Hx. unfold round_magnitude. cbn zeta.
  set (q := Z.max (ilog2 x - 52) (-1074)).
  pose proof (Qpower_2_pos q) as Hpos.
  destruct (Z.le_gt_cases q 0) as [Hq|Hq].
  - (* the unit in the last place is at most 1 *)
    assert (inject_Z (2 ^ (- q)) * 2 ^ q == 1)%Q as Hunit.
    { rewrite Zpower_Qpower by lia. rewrite Qpower_opp.
      rewrite Qmult_comm. apply Qmult_inv_r.
      intros H0. rewrite H0 in Hpos. by apply Qlt_irrefl in Hpos. }
    assert (n * 2 ^ (- q) ≤ round_half_even (x / 2 ^ q)) as Hr.
    { apply round_half_even_ge. apply Qle_shift_div_l; [done|].
      rewrite inject_Z_mult, <-Qmult_assoc, Hunit, Qmult_1_r. done. }
    apply (Qle_trans _ (inject_Z (n * 2 ^ (- q)) * 2 ^ q)).
    + rewrite inject_Z_mult, <-Qmult_assoc, Hunit, Qmult_1_r. apply Qle_refl.
    + apply Qmult_le_compat_r; [|by apply Qlt_le_weak].
      by rewrite <-Zle_Qle.
  - (* the number is at least 2 ^ 53 *)
    assert (Qle_bool 1 x = true) as H1.
    { destruct (Qle_bool 1 x) eqn:Hb; [done|].
      pose proof (ilog2_le_0 x Hb). lia. }
    assert (q = Z.log2 (Qfloor x) - 52) as Hqe.
    { unfold q, ilog2 in *. rewrite H1 in *. lia. }
    assert (0 < Qfloor x) as Hfl.
    { apply Qle_bool_iff in H1. apply Qfloor_resp_le in H1.
      change (Qfloor 1) with 1 in H1. lia. }
    pose proof (Z.log2_spec (Qfloor x) Hfl) as [Hlo _].
    assert (2 ^ q == inject_Z (2 ^ q))%Q as Hpow
      by (symmetry; apply (Zpower_Qpower 2 q); lia).
    assert (2 ^ 52 ≤ round_half_even (x / 2 ^ q)) as Hr.
    { apply round_half_even_ge. apply Qle_shift_div_l; [done|].
      rewrite Hpow at 1. rewrite <-inject_Z_mult.
      apply (Qle_trans _ (inject_Z (Qfloor x))); [|apply Qfloor_le].
      rewrite <-Zle_Qle. rewrite <-Z.pow_add_r by lia.
      by replace (52 + q) with (Z.log2 (Qfloor x)) by lia. }
    apply (Qle_trans _ (inject_Z (2 ^ 52) * 2 ^ q)).
    + rewrite Hpow. rewrite <-inject_Z_mult, <-Zle_Qle.
      rewrite <-Z.pow_add_r by lia.
      assert (2 ^ 53 ≤ 2 ^ (52 + q)) by (apply Z.pow_le_mono_r; lia). lia.
    + apply Qmult_le_compat_r; [|by apply Qlt_le_weak].
      by rewrite <-Zle_Qle.
Qed.

Lemma round64_ge (n : Z) (x : Q) :
  0 ≤ n < 2 ^ 53 → (inject_Z n <= x)%Q → (inject_Z n <= round64 x)%Q.
Proof.
  intros Hn Hx. unfold round64. destruct x as [a b].
  unfold Qle in Hx. cbn [Qnum Qden inject_Z] in *.
  destruct a as [|a|a].
  - unfold Qle. cbn [Qnum Qden inject_Z]. lia.
  - apply round_magnitude_ge; [done|]. unfold Qle. by cbn [Qnum Qden inject_Z].
  - lia.
Qed.

Lemma int_of_ge (n : Z) (x : Q) : 0 ≤ n → (inject_Z n <= x)%Q → n ≤ int_of x.
Proof.
  intros Hn Hx. destruct x as [a b]. unfold int_of, Qle in *.
  cbn [Qnum Qden inject_Z] in *.
  apply Z.quot_le_lower_bound; lia.
Qed.

(** With a weight of at least 1 the product, as the interpreter computes it,
    is no less than the length. *)
Lemma int_of_scale_ge (n : Z) (w : Q) :
  0 ≤ n < 2 ^ 53 → (1 <= w)%Q → n ≤ int_of (float_mul (float_of_int n) w).
Proof.
  intros Hn Hw. apply int_of_ge; [lia|]. unfold float_mul, float_of_int.
  apply round64_ge; [done|].
  assert (inject_Z n <= round64 (inject_Z n))%Q as Hf
    by (apply round64_ge; [done|apply Qle_refl]).
  apply (Qle_trans _ (round64 (inject_Z n) * 1)); [by rewrite Qmult_1_r|].
  rewrite !(Qmult_comm (round64 (inject_Z n))).
  apply Qmult_le_compat_r; [done|].
  apply (Qle_trans _ (inject_Z n)); [|done].
  rewrite Zle_Qle in Hn. change 0%Q with (inject_Z 0). by apply Hn.
Qed.

(** A length of more than 53 bits is not a double: [float(2 ** 53 + 1)] is
    [2 ** 53]. *)
Example round64_above_53_bits :
  int_of (float_mul (float_of_int (2 ^ 53 + 1)) 1) = 2 ^ 53.
Proof. by vm_compute. Qed.

(** A label whose weight is at least 1 contributes its whole bucket: every
    entry of [words] with that label is among the candidates.  (The length
    of [words] is below [2 ^ 53], so that its conversion to a double is
    exact.) *)
Theorem mixture_whole_bucket (words : list Item) (ratios : Ratios)
    (tape : list nat) (L : string) (w : Q) :
  NoDup ratios.*1 → (L, w) ∈ ratios → (1 <= w)%Q →
  Z.of_nat (length words) < 2 ^ 53 →
  ∀ i x, words !! i = Some x → label x = L →
         (i, x) ∈ (select_random_mixture words ratios tape).1.
Proof.
  intros Hnd Hin Hw Hlen53 i x Hx HL.
  destruct (select_random_mixture_parts words ratios tape) as (parts & Hperm & Hparts).
  assert (length (mixture_pool words ratios) ≤ length words)%nat as Hpw.
  { etrans; [apply submseteq_length, mixture_pool_submseteq|].
    unfold enumerate. by rewrite length_imap. }
  set (pool := mixture_pool words ratios) in *.
  assert ((i, x) ∈ bucket pool L) as Hb.
  { apply elem_of_bucket. split; [done|]. apply elem_of_mixture_pool.
    split; [done|]. cbn [snd]. rewrite HL. apply list_elem_of_fmap. by exists (L, w). }
  assert (sample_size pool (L, w) = length (bucket pool L)) as Hsize.
  { unfold sample_size, mixture_count. cbn [fst snd].
    pose proof (int_of_scale_ge (Z.of_nat (length pool)) w ltac:(lia) Hw).
    assert (length (bucket pool L) ≤ length pool)%nat
      by (unfold bucket; apply length_filter).
    lia. }
  destruct (sample_of_item pool ratios parts (L, w) Hparts Hin)
    as (s & Hs & [Hsub Hlen]).
  assert (s ≡ₚ bucket pool L) as Hall.
  { apply submseteq_length_Permutation; [done|]. cbn [fst] in *. lia. }
  rewrite Hperm. apply (elem_of_concat _ s); [|done]. by rewrite Hall.
Qed.

Lemma mixture_whole_bucket_witness :
  NoDup [("0%", 1%Q)].*1 ∧ ("0%", 1%Q) ∈ [("0%", 1%Q)] ∧ (1 <= 1)%Q
  ∧ Z.of_nat (length demo_words) < 2 ^ 53
  ∧ (1%nat, katt) ∈ (select_random_mixture demo_words [("0%", 1%Q)] demo_tape).1.
Proof.
  assert (NoDup [("0%", 1%Q)].*1) as Hnd by (by apply (bool_decide_unpack _); vm_compute).
  assert (("0%", 1%Q) ∈ [("0%", 1%Q)]) as Hin by left.
  assert (1 <= 1)%Q as Hw by (vm_compute; discriminate).
  assert (Z.of_nat (length demo_words) < 2 ^ 53) as Hlen by (vm_compute; reflexivity).
  split; [exact Hnd|]. split; [exact Hin|]. split; [exact Hw|]. split; [exact Hlen|].
  apply (mixture_whole_bucket demo_words [("0%", 1%Q)] demo_tape "0%" 1%Q Hnd Hin Hw
           Hlen 1%nat katt); reflexivity.
Defined.

(** ** The cooldown map *)

(** Pruning never adds a key, and pruning at two successive renders amounts
    to pruning once at the later one. *)
Theorem prune_prune (now now' : Z) (rs : gmap string Z) :
  now ≤ now' →
  prune now' (prune now rs) = prune now' rs
  ∧ prune now (prune now rs) = prune now rs
  ∧ dom (prune now rs) ⊆ dom rs.
Proof.
  intros Hle. split; [|split].
  - apply map_eq. intros k. apply option_eq. intros t.
    rewrite !prune_lookup_Some. intuition lia.
  - apply map_eq. intros k. apply option_eq. intros t.
    rewrite !prune_lookup_Some. intuition lia.
  - intros k [t Ht]%elem_of_dom. apply prune_lookup_Some in Ht as [Ht _].
    apply elem_of_dom. by exists t.
Qed.

Lemma prune_prune_witness :
  1000 ≤ 1250
  ∧ prune 1250 (prune 1000 (recently_seen cooling_session))
    = prune 1250 (recently_seen cooling_session).
Proof.
  assert (1000 ≤ 1250) as Hle by (vm_compute; discriminate).
  split; [exact Hle|].
  apply (prune_prune 1000 1250 (recently_seen cooling_session) Hle).
Defined.

(** ** The bulk selection *)

(** The indices the admin panel collects are positions of [words], in
    increasing order and each at most once: the update loop never indexes out
    of range and never visits an entry twice.  A position is collected
    exactly when its entry is eligible and its box is ticked. *)
Theorem selected_indices_in_order (f : BulkForm) (words : list Item) :
  selected_indices f words `sublist_of` seq 0 (length words)
  ∧ NoDup (selected_indices f words)
  ∧ (∀ idx, idx ∈ selected_indices f words → (idx < length words)%nat)
  ∧ (∀ idx, idx ∈ selected_indices f words ↔
            ∃ w, words !! idx = Some w ∧ eligible f w = true ∧ checked f idx = true).
Proof.
  assert (selected_indices f words `sublist_of` seq 0 (length words)) as Hsub.
  { unfold selected_indices. rewrite <-enumerate_fst.
    apply fmap_sublist, sublist_filter. }
  split; [done|]. split; [|split].
  - eapply sublist_NoDup; [apply NoDup_seq|done].
  - intros idx Hidx. eapply elem_of_sublist in Hidx; [|done].
    apply elem_of_seq in Hidx. lia.
  - apply elem_of_selected_indices.
Qed.

(** ** Grouping by seen count *)

Lemma group_by_seen_fold (g : SeenGroups) (words : list Item) :
  foldl group_step g words
  = mkSeenGroups (low g ++ filter (λ w, seen w ≤ 2) words)
                 (medium g ++ filter (λ w, 3 ≤ seen w ≤ 5) words)
                 (high g ++ filter (λ w, 6 ≤ seen w) words).
Proof.
  revert g. induction words as [|w words IH]; intros g.
  { cbn [foldl]. rewrite !filter_nil, !app_nil_r. by destruct g. }
  cbn [foldl]. rewrite IH. unfold group_step.
  repeat case_bool_decide; cbn [low medium high];
    rewrite ?(filter_cons_True (λ w, seen w ≤ 2)) by lia;
    rewrite ?(filter_cons_False (λ w, seen w ≤ 2)) by lia;
    rewrite ?(filter_cons_True (λ w, 3 ≤ seen w ≤ 5)) by lia;
    rewrite ?(filter_cons_False (λ w, 3 ≤ seen w ≤ 5)) by lia;
    rewrite ?(filter_cons_True (λ w, 6 ≤ seen w)) by lia;
    rewrite ?(filter_cons_False (λ w, 6 ≤ seen w)) by lia;
    by rewrite <-?app_assoc.
Qed.

(** [group_by_seen] splits [words] three ways by seen count, at most 2, from
    3 to 5, and 6 or more, keeping the order of [words] inside each group;
    every entry lands in exactly one group, a negative count in the first. *)
Theorem group_by_seen_partition (words : list Item) :
  let g := group_by_seen words in
  low g = filter (λ w, seen w ≤ 2) words
  ∧ medium g = filter (λ w, 3 ≤ seen w ≤ 5) words
  ∧ high g = filter (λ w, 6 ≤ seen w) words
  ∧ low g ++ medium g ++ high g ≡ₚ words
  ∧ (length (low g) + length (medium g) + length (high g) = length words)%nat.
Proof.
  cbn zeta. unfold group_by_seen. rewrite group_by_seen_fold.
  cbn [low medium high app].
  assert (filter (λ w, seen w ≤ 2) words ++ filter (λ w, 3 ≤ seen w ≤ 5) words
          ++ filter (λ w, 6 ≤ seen w) words ≡ₚ words) as Hperm.
  { rewrite <-(filter_app_complement (λ w, seen w ≤ 2) words) at 4.
    apply Permutation_app; [done|].
    rewrite <-(filter_app_complement (λ w, seen w ≤ 5)
                 (filter (λ w, ¬ seen w ≤ 2) words)).
    rewrite !list_filter_filter.
    apply Permutation_app.
    - erewrite list_filter_iff; [done|]. intros w. simpl. lia.
    - erewrite list_filter_iff; [done|]. intros w. simpl. lia. }
  split; [done|]. split; [done|]. split; [done|]. split; [done|].
  rewrite <-Hperm at 4. rewrite !length_app. lia.
Qed.

(** ** Saving and loading *)

Lemma to_json_fill_defaults_inv (raw : list RawItem) :
  to_json <$> (fill_defaults <$> raw) = raw → normalized raw.
Proof.
  induction raw as [|r raw IH]; [constructor|].
  rewrite !fmap_cons. intros [= Hr Hraw]. constructor; [|by apply IH].
  destruct r as [sv en cat [l|] [n|]]; simpl in *; try discriminate; eauto.
Qed.

(** What [save_words] writes, [load_words] reads back unchanged, and that
    load leaves the file contents as they were.  On any file, [load_words]
    changes the contents exactly when some entry lacks [label] or [seen]. *)
Theorem save_load_round_trip (words : list Item) (fs : Store) :
  (load_words (save_words words fs)).1 = words
  ∧ file (load_words (save_words words fs)).2 = file (save_words words fs)
  ∧ (file (load_words fs).2 = file fs
     ↔ file fs = None ∨ ∃ raw, file fs = Some raw ∧ normalized raw).
Proof.
  split; [by rewrite load_words_save|]. split; [by rewrite load_words_save|].
  rewrite load_words_file. destruct (file fs) as [raw|]; split.
  - intros [= Heq]. right. exists raw. split; [done|].
    by apply to_json_fill_defaults_inv.
  - intros [?|(raw' & [= <-] & Hn)]; [done|]. by rewrite to_json_fill_defaults.
  - by left.
  - done.
Qed.

(** ** The resets *)

(** [reset_all_labels] sets every label to ["0%"] and [reset_all_seen] every
    seen count to 0, whatever they were, leaving order, length and the other
    fields alone, and each writes the list once.  Each is idempotent, the two
    commute, and after both a load returns entries that are all at ["0%"]
    and 0. *)
Theorem resets_compose (words : list Item) (fs : Store) :
  let rl := reset_all_labels words fs in
  let rs := reset_all_seen words fs in
  (∀ i w, words !! i = Some w →
     rl.1 !! i = Some (mkItem (swedish w) (english w) (category w) "0%" (seen w))
     ∧ rs.1 !! i = Some (mkItem (swedish w) (english w) (category w) (label w) 0))
  ∧ length rl.1 = length words ∧ length rs.1 = length words
  ∧ dumps rl.2 = (to_json <$> rl.1) :: dumps fs
  ∧ dumps rs.2 = (to_json <$> rs.1) :: dumps fs
  ∧ (reset_all_labels rl.1 rl.2).1 = rl.1
  ∧ (reset_all_seen rs.1 rs.2).1 = rs.1
  ∧ (reset_all_seen rl.1 rl.2).1 = (reset_all_labels rs.1 rs.2).1
  ∧ ∀ w, w ∈ (load_words (reset_all_seen rl.1 rl.2).2).1 →
         label w = "0%" ∧ seen w = 0.
Proof.
  cbn zeta. unfold reset_all_labels, reset_all_seen. cbn [fst snd dumps save_words].
  split; [|split; [|split; [|split; [|split; [|split; [|split; [|split]]]]]]].
  - intros i w Hw. by rewrite !list_lookup_fmap, Hw.
  - by rewrite length_fmap.
  - by rewrite length_fmap.
  - done.
  - done.
  - rewrite <-list_fmap_compose. by apply list_fmap_ext.
  - rewrite <-list_fmap_compose. by apply list_fmap_ext.
  - rewrite <-!list_fmap_compose. by apply list_fmap_ext.
  - intros w. rewrite load_words_save. cbn [fst].
    rewrite <-list_fmap_compose.
    by intros (w0 & -> & _)%list_elem_of_fmap.
Qed.

(** ** What a run can do to the vocabulary *)

Lemma keeps_entries_refl ws : keeps_entries ws ws.
Proof. intros i w Hw. exists w. by repeat split. Qed.

Lemma keeps_entries_identity ws ws' : keeps_entries ws ws' → keeps_identity ws ws'.
Proof.
  intros H i w Hw. destruct (H i w Hw) as (w' & ? & ? & ? & ? & _).
  by exists w'.
Qed.

Lemma keeps_identity_trans ws1 ws2 ws3 :
  keeps_identity ws1 ws2 → keeps_identity ws2 ws3 → keeps_identity ws1 ws3.
Proof.
  intros H12 H23 i w Hw.
  destruct (H12 i w Hw) as (w2 & Hw2 & ? & ? & ?).
  destruct (H23 i w2 Hw2) as (w3 & Hw3 & ? & ? & ?).
  exists w3. split; [done|]. repeat split; congruence.
Qed.

Lemma keeps_identity_length ws ws' :
  keeps_identity ws ws' → (length ws ≤ length ws')%nat.
Proof.
  intros H. destruct (decide (length ws ≤ length ws')%nat) as [|Hlt]; [done|].
  destruct (lookup_lt_is_Some_2 ws (length ws')) as [w Hw]; [lia|].
  destruct (H _ _ Hw) as (w' & Hw' & _).
  apply lookup_lt_Some in Hw'. lia.
Qed.

Lemma keeps_identity_fmap (g : Item → Item) ws :
  (∀ w, swedish (g w) = swedish w ∧ english (g w) = english w
        ∧ category (g w) = category w) →
  keeps_identity ws (g <$> ws).
Proof.
  intros Hg j w Hw. exists (g w). rewrite list_lookup_fmap, Hw.
  split; [done|]. apply Hg.
Qed.

Lemma keeps_identity_bulk f indices ws :
  keeps_identity ws (apply_bulk_update f indices ws no_store).1.
Proof.
  intros j w Hw. unfold apply_bulk_update. cbn [fst].
  rewrite bulk_loop_lookup, Hw. case_decide; eexists; (split; [done|]); done.
Qed.

Section VocabularyFacts.
Variable str_lower : string → string.
Variable ADMIN_PASSWORD : string.

Lemma draw_menu_pressed p show :
  draw_pressed (draw_menu p show) = true ∧ show_pressed (draw_menu p show) = show.
Proof. by destruct p as [[]|c]. Qed.

(** The ways one run can change the vocabulary in the file. *)
Lemma main_vocabulary menu now ss fs tape :
  let o := main str_lower ADMIN_PASSWORD menu now ss fs tape in
  let words := (load_words fs).1 in
  let after := (load_words (out_store o)).1 in
  after = words
  ∨ (draw_pressed menu = true
     ∧ ∃ i w, words !! i = Some w ∧ after = alter incr_seen i words)
  ∨ (∃ sv en cat, menu = AddNewWord sv en cat true
                  ∧ ¬ has_key str_lower sv words
                  ∧ after = words ++ [mkItem sv en cat "0%" 0])
  ∨ (admin_with ADMIN_PASSWORD menu
     ∧ length after = length words ∧ keeps_identity words after).
Proof.
  cbn zeta.
  assert ((load_words (load_words fs).2).1 = (load_words fs).1) as Hidle
    by apply load_words_twice.
  assert (∀ p show,
    let o := main str_lower ADMIN_PASSWORD (draw_menu p show) now ss fs tape in
    (load_words (out_store o)).1 = (load_words fs).1
    ∨ (draw_pressed (draw_menu p show) = true
       ∧ ∃ i w, (load_words fs).1 !! i = Some w
                ∧ (load_words (out_store o)).1 = alter incr_seen i (load_words fs).1))
    as Hpressed.
  { intros p show. cbn zeta. rewrite main_draw_menu. unfold after_show.
    cbn [out_store].
    destruct ((drawable p now (load_words fs).1 ss tape).1) as [|x l] eqn:Hav.
    - left. destruct p; cbn [draw_word draw_from_category out_store]; done.
    - right. split; [apply draw_menu_pressed|].
      assert (∃ sel, sel ∈ (drawable p now (load_words fs).1 ss tape).1
        ∧ out_store match p with
          | Mixture d =>
              draw_word (exposure d) now (x :: l) (load_words fs).1
                (prune_session now ss) (load_words fs).2
                (drawable p now (load_words fs).1 ss tape).2
          | Category _ =>
              draw_from_category (x :: l) (load_words fs).1 ss (load_words fs).2 tape
          end
          = save_words (alter incr_seen sel.1 (load_words fs).1) (load_words fs).2)
        as (sel & Hsel & ->).
      { rewrite Hav. destruct p as [d|c].
        - destruct (draw_word_pick (exposure d) now (x :: l) (load_words fs).1
            (prune_session now ss) (load_words fs).2
            (drawable (Mixture d) now (load_words fs).1 ss tape).2 ltac:(done))
            as (j & sel & t1 & _ & _ & Hsel & ->).
          exists sel. split; [by eapply list_elem_of_lookup_2|done].
        - destruct (draw_from_category_pick (x :: l) (load_words fs).1 ss
            (load_words fs).2 tape ltac:(done))
            as (j & sel & t1 & _ & _ & Hsel & ->).
          exists sel. split; [by eapply list_elem_of_lookup_2|done]. }
      exists sel.1, sel.2. rewrite load_words_save.
      split; [|done]. by eapply drawable_valid. }
  destruct menu as [draw show|c draw show|draw show|sv en cat add|
                    |password ratio_input reset_labels reset_seen form apply].
  - destruct draw.
    + destruct (Hpressed (Mixture SwedishToEnglish) show) as [?|?]; auto.
    + left. by rewrite (main_mixture_idle str_lower ADMIN_PASSWORD SwedishToEnglish).
  - destruct draw.
    + destruct (Hpressed (Category c) show) as [?|?]; auto.
    + left. unfold main, category_page.
      destruct (load_words fs) as [words fs1]. done.
  - destruct draw.
    + destruct (Hpressed (Mixture EnglishToSwedishDir) show) as [?|?]; auto.
    + left. by rewrite (main_mixture_idle str_lower ADMIN_PASSWORD EnglishToSwedishDir).
  - unfold main, add_page.
    pose proof (add_word_eq str_lower sv en cat (load_words fs).2) as Hadd.
    pose proof (existsb_same_key str_lower sv (load_words (load_words fs).2).1) as Hex.
    destruct (load_words fs) as [words fs1]. cbn [fst snd] in *.
    destruct add; [|by left].
    destruct (_ && _); [|by left].
    destruct (add_word str_lower sv en cat fs1) as [added fs2].
    cbn [out_store]. rewrite Hidle in Hex, Hadd.
    destruct (existsb (λ w, same_key str_lower (swedish w) sv) words) eqn:He;
      injection Hadd as -> ->.
    + left. by rewrite load_words_twice.
    + right. right. left. exists sv, en, cat. split; [done|]. split.
      * intros Hk. apply Hex in Hk. discriminate.
      * by rewrite load_words_save.
  - left. unfold main. by destruct (load_words fs) as [words fs1].
  - unfold main, admin_page.
    destruct (load_words fs) as [words fs1]. cbn [fst snd] in *.
    case_bool_decide as Hpw; [by left|].
    assert (password = ADMIN_PASSWORD) as ->.
    { destruct (decide (password = ADMIN_PASSWORD)); [done|]. by destruct Hpw. }
    destruct reset_labels; [|destruct reset_seen; [|destruct apply]];
      cbn [reset_all_labels reset_all_seen apply_bulk_update out_store].
    + right. right. right. rewrite load_words_save. cbn [fst]. split; [done|].
      split; [by rewrite length_fmap|]. by apply keeps_identity_fmap.
    + right. right. right. rewrite load_words_save. cbn [fst]. split; [done|].
      split; [by rewrite length_fmap|]. by apply keeps_identity_fmap.
    + right. right. right. rewrite load_words_save. cbn [fst]. split; [done|].
      split; [apply bulk_loop_length|]. apply (keeps_identity_bulk form).
    + by left.
Qed.

(** Only the admin panel opened with the password writes [ratios]. *)
Lemma main_ratios_admin menu now ss fs tape :
  ¬ admin_with ADMIN_PASSWORD menu →
  ratios (out_session (main str_lower ADMIN_PASSWORD menu now ss fs tape))
  = ratios ss.
Proof.
  intros Hadmin. unfold main, mixture_page, category_page, add_page, admin_page,
    after_show, draw_word, draw_from_category.
  destruct (load_words fs) as [words fs1].
  destruct menu; cbn [admin_with] in Hadmin;
    repeat case_match; cbn [out_session];
    rewrite ?(proj1 (proj2 (show_translation_fields _ _)));
    cbn [ratios prune_session]; try done.
  all: exfalso; apply Hadmin;
    match goal with
    | H : bool_decide _ = false |- _ =>
        apply bool_decide_eq_false in H;
        destruct (decide (password = ADMIN_PASSWORD)); [done|by destruct H]
    end.
Qed.

End VocabularyFacts.

Lemma keeps_entries_alter_incr i ws : keeps_entries ws (alter incr_seen i ws).
Proof.
  intros j w Hw. destruct (decide (i = j)) as [->|Hne].
  - exists (incr_seen w). rewrite list_lookup_alter_eq, Hw.
    split; [done|]. repeat split; simpl; lia.
  - exists w. rewrite list_lookup_alter_ne by done. by repeat split.
Qed.

Lemma keeps_entries_app ws ws' : keeps_entries ws (ws ++ ws').
Proof.
  intros j w Hw. exists w. split; [by apply lookup_app_l_Some|]. by repeat split.
Qed.

Lemma tidy_save_words ws fs : tidy (save_words ws fs).
Proof.
  intros raw [= <-]. apply Forall_fmap, Forall_true. intros w. simpl. eauto.
Qed.

Lemma tidy_load_words fs : tidy (load_words fs).2.
Proof.
  unfold load_words. destruct (file fs) as [raw|] eqn:Hf.
  - apply tidy_save_words.
  - intros raw. cbn [snd]. by rewrite Hf.
Qed.

Section RunClaims.
Variable str_lower : string → string.
Variable ADMIN_PASSWORD : string.

(** Unless the admin panel is opened with the password, a run leaves [ratios]
    alone and keeps every stored entry in place with its terms, category and
    label; its seen count may only go up.  A wrong password makes the admin
    panel one of these runs, whatever buttons are pressed. *)
Theorem only_admin_relabels (menu : Menu) (now : Z) (ss : Session) (fs : Store)
    (tape : list nat) :
  ¬ admin_with ADMIN_PASSWORD menu →
  let o := main str_lower ADMIN_PASSWORD menu now ss fs tape in
  keeps_entries (load_words fs).1 (load_words (out_store o)).1
  ∧ ratios (out_session o) = ratios ss.
Proof.
  intros Hadmin. cbn zeta. split; [|by apply main_ratios_admin].
  destruct (main_vocabulary str_lower ADMIN_PASSWORD menu now ss fs tape)
    as [->|[(_ & i & w & _ & ->)|[(sv & en & cat & _ & _ & ->)|[? _]]]].
  - apply keeps_entries_refl.
  - apply keeps_entries_alter_incr.
  - apply keeps_entries_app.
  - done.
Qed.

(** Whatever the runs of a session, no stored entry is deleted, moved or
    renamed: each keeps its position, its two terms and its category, and the
    vocabulary never gets shorter. *)
Theorem runs_never_delete (st : Session * Store) (ins : list Input) :
  let st' := run_all str_lower ADMIN_PASSWORD st ins in
  keeps_identity (load_words st.2).1 (load_words st'.2).1
  ∧ (length (load_words st.2).1 ≤ length (load_words st'.2).1)%nat.
Proof.
  cbn zeta.
  assert (keeps_identity (load_words st.2).1
            (load_words (run_all str_lower ADMIN_PASSWORD st ins).2).1) as Hk.
  { revert st. induction ins as [|i ins IH]; intros st.
    { intros j w Hw. by exists w. }
    unfold run_all. cbn [foldl]. fold (run_all str_lower ADMIN_PASSWORD).
    eapply keeps_identity_trans; [|apply IH].
    unfold step. cbn [snd].
    destruct (main_vocabulary str_lower ADMIN_PASSWORD (in_menu i) (in_now i)
                st.1 st.2 (in_tape i))
      as [->|[(_ & j & w & _ & ->)|[(sv & en & cat & _ & _ & ->)|(_ & _ & ?)]]].
    - apply keeps_entries_identity, keeps_entries_refl.
    - apply keeps_entries_identity, keeps_entries_alter_incr.
    - apply keeps_entries_identity, keeps_entries_app.
    - done. }
  split; [done|]. by apply keeps_identity_length.
Qed.

(** After every run the data file, if there is one, has [label] and [seen]
    on every entry, and no run removes the file. *)
Theorem runs_keep_file_tidy (menu : Menu) (now : Z) (ss : Session) (fs : Store)
    (tape : list nat) :
  let o := main str_lower ADMIN_PASSWORD menu now ss fs tape in
  tidy (out_store o) ∧ (file (out_store o) = None → file fs = None).
Proof.
  cbn zeta.
  assert (∀ s, tidy s ∧ (file s = None → file fs = None) →
               tidy (load_words s).2 ∧ (file (load_words s).2 = None → file fs = None))
    as Hload.
  { intros s [_ Hs]. split; [apply tidy_load_words|].
    rewrite load_words_file. destruct (file s); [done|]. intros _. by apply Hs. }
  assert (∀ ws s, tidy (save_words ws s)
                  ∧ (file (save_words ws s) = None → file fs = None)) as Hsave.
  { intros ws s. split; [apply tidy_save_words|done]. }
  assert (tidy (load_words fs).2 ∧ (file (load_words fs).2 = None → file fs = None))
    as Hfirst.
  { split; [apply tidy_load_words|]. rewrite load_words_file. by destruct (file fs). }
  unfold main, mixture_page, category_page, add_page, admin_page,
    after_show, draw_word, draw_from_category, reset_all_labels, reset_all_seen,
    apply_bulk_update.
  pose proof (λ sv en cat, add_word_eq str_lower sv en cat (load_words fs).2) as Hadd.
  destruct (load_words fs) as [words fs1]. cbn [fst snd] in *.
  destruct menu as [draw show|c draw show|draw show|sv en cat add|
                    |password ratio_input reset_labels reset_seen form apply];
    try (repeat case_match; cbn [out_store]; by auto).
  specialize (Hadd sv en cat).
  destruct add; [|done]. destruct (_ && _); [|done].
  destruct (add_word str_lower sv en cat fs1) as [added fs2]. cbn [out_store].
  destruct (existsb _ _); injection Hadd as -> ->; auto.
Qed.

(** The reveal flag and the current word change in two ways only.  A
    successful draw installs the drawn entry, with its new seen count, as the
    current word and hides the translation.  Otherwise the current word
    stays, and the flag stays too unless the show button is pressed while a
    word is current and hidden, which sets it; nothing but a draw clears
    it. *)
Theorem reveal_machine (menu : Menu) (now : Z) (ss : Session) (fs : Store)
    (tape : list nat) :
  let o := main str_lower ADMIN_PASSWORD menu now ss fs tape in
  let ss' := out_session o in
  (current_word ss' = current_word ss
   ∧ (reveal ss' = reveal ss
      ∨ (reveal ss = false ∧ reveal ss' = true ∧ show_pressed menu = true
         ∧ is_Some (current_word ss))))
  ∨ (draw_pressed menu = true ∧ out_notices o = []
     ∧ ∃ i w, (load_words fs).1 !! i = Some w
              ∧ current_word ss' = Some (incr_seen w)
              ∧ out_words o !! i = Some (incr_seen w)
              ∧ reveal ss' = show_pressed menu).
Proof.
  cbn zeta.
  assert (∀ show s,
    current_word (show_translation show s) = current_word s
    ∧ (reveal (show_translation show s) = reveal s
       ∨ (reveal s = false ∧ reveal (show_translation show s) = true
          ∧ show = true ∧ is_Some (current_word s)))) as Hshow.
  { intros show s. unfold show_translation.
    destruct (current_word s) as [cw|] eqn:Hc; [|by rewrite Hc; auto].
    destruct (reveal s) eqn:Hr, show; cbn [negb andb current_word reveal];
      rewrite ?Hc, ?Hr; (split; [done|]);
      first [by left | right; by repeat split]. }
  assert (∀ p show,
    let o := main str_lower ADMIN_PASSWORD (draw_menu p show) now ss fs tape in
    (current_word (out_session o) = current_word ss
     ∧ (reveal (out_session o) = reveal ss
        ∨ (reveal ss = false ∧ reveal (out_session o) = true ∧ show = true
           ∧ is_Some (current_word ss))))
    ∨ (out_notices o = []
       ∧ ∃ i w, (load_words fs).1 !! i = Some w
                ∧ current_word (out_session o) = Some (incr_seen w)
                ∧ out_words o !! i = Some (incr_seen w)
                ∧ reveal (out_session o) = show)) as Hpressed.
  { intros p show. cbn zeta. rewrite main_draw_menu. unfold after_show.
    cbn [out_session out_notices out_words].
    destruct ((drawable p now (load_words fs).1 ss tape).1) as [|x l] eqn:Hav.
    - left. destruct p; cbn [draw_word draw_from_category out_session];
        [apply (Hshow show (prune_session now ss))|apply (Hshow show ss)].
    - right.
      assert (∃ sel rs t1, sel ∈ (drawable p now (load_words fs).1 ss tape).1
        ∧ match p with
          | Mixture d =>
              draw_word (exposure d) now (x :: l) (load_words fs).1
                (prune_session now ss) (load_words fs).2
                (drawable p now (load_words fs).1 ss tape).2
          | Category _ =>
              draw_from_category (x :: l) (load_words fs).1 ss (load_words fs).2 tape
          end
          = mkOutcome (alter incr_seen sel.1 (load_words fs).1)
              (mkSession rs (ratios ss)
                 (alter incr_seen sel.1 (load_words fs).1 !! sel.1) false)
              (save_words (alter incr_seen sel.1 (load_words fs).1) (load_words fs).2)
              t1 [])
        as (sel & rs & t1 & Hsel & ->).
      { rewrite Hav. destruct p as [d|c].
        - destruct (draw_word_pick (exposure d) now (x :: l) (load_words fs).1
            (prune_session now ss) (load_words fs).2
            (drawable (Mixture d) now (load_words fs).1 ss tape).2 ltac:(done))
            as (j & sel & t1 & _ & _ & Hsel & ->).
          eexists sel, _, t1. split; [by eapply list_elem_of_lookup_2|done].
        - destruct (draw_from_category_pick (x :: l) (load_words fs).1 ss
            (load_words fs).2 tape ltac:(done))
            as (j & sel & t1 & _ & _ & Hsel & ->).
          eexists sel, _, t1. split; [by eapply list_elem_of_lookup_2|done]. }
      apply drawable_valid in Hsel.
      cbn [out_session out_notices out_words]. split; [done|].
      exists sel.1, sel.2. split; [done|].
      rewrite list_lookup_alter_eq, Hsel. cbn [fmap option_fmap option_map].
      unfold show_translation. cbn [current_word reveal negb andb].
      by destruct show. }
  destruct menu as [draw show|c draw show|draw show|sv en cat add|
                    |password ratio_input reset_labels reset_seen form apply];
    cbn [draw_pressed show_pressed].
  - destruct draw.
    + destruct (Hpressed (Mixture SwedishToEnglish) show) as [?|[? ?]]; auto.
    + left. rewrite (main_mixture_idle str_lower ADMIN_PASSWORD SwedishToEnglish).
      apply (Hshow show (prune_session now ss)).
  - destruct draw.
    + destruct (Hpressed (Category c) show) as [?|[? ?]]; auto.
    + left. unfold main, category_page. destruct (load_words fs) as [words fs1].
      apply (Hshow show ss).
  - destruct draw.
    + destruct (Hpressed (Mixture EnglishToSwedishDir) show) as [?|[? ?]]; auto.
    + left. rewrite (main_mixture_idle str_lower ADMIN_PASSWORD EnglishToSwedishDir).
      apply (Hshow show (prune_session now ss)).
  - left. unfold main, add_page. destruct (load_words fs) as [words fs1].
    repeat case_match; cbn [out_session]; auto.
  - left. unfold main. destruct (load_words fs) as [words fs1]. auto.
  - left. unfold main, admin_page. destruct (load_words fs) as [words fs1].
    repeat case_match; cbn [out_session current_word reveal]; auto.
Qed.

End RunClaims.

Lemma only_admin_relabels_witness :
  ¬ admin_with "secret" (AdminPanel "guess" (λ _, 1%Q) true true bulk_demo_form true)
  ∧ ratios (out_session
      (main ascii_lower "secret"
            (AdminPanel "guess" (λ _, 1%Q) true true bulk_demo_form true)
            1000 new_session demo_store demo_tape))
    = ratios new_session.
Proof.
  assert (¬ admin_with "secret"
            (AdminPanel "guess" (λ _, 1%Q) true true bulk_demo_form true)) as Hno
    by (cbn; discriminate).
  split; [exact Hno|].
  apply (only_admin_relabels ascii_lower "secret" _ 1000 new_session demo_store
           demo_tape Hno).
Defined.

(** ** The add page *)

Section AddPage.
Variable str_lower : string → string.
Variable ADMIN_PASSWORD : string.

(** The add page never touches the session, the generator or the list
    [words] of the run, which therefore does not show a word just added.
    With the button pressed and a field left empty it warns and writes
    nothing more; with all three filled in it reports an error when the key
    is there up to case and otherwise appends the word with label ["0%"] and
    seen 0.  A field of blanks counts as filled in. *)
Theorem add_page_effects (sv en cat : string) (add : bool) (now : Z)
    (ss : Session) (fs : Store) (tape : list nat) :
  let o := main str_lower ADMIN_PASSWORD (AddNewWord sv en cat add) now ss fs tape in
  let words := (load_words fs).1 in
  let after := (load_words (out_store o)).1 in
  out_session o = ss ∧ out_words o = words ∧ out_tape o = tape
  ∧ (add = false → out_store o = (load_words fs).2 ∧ out_notices o = [])
  ∧ (add = true → sv = "" ∨ en = "" ∨ cat = "" →
       out_store o = (load_words fs).2
       ∧ out_notices o = [st_warning PleaseFillInAllFields])
  ∧ (add = true → sv ≠ "" → en ≠ "" → cat ≠ "" →
       (has_key str_lower sv words →
          out_notices o = [st_error (AlreadyExists sv)] ∧ after = words)
       ∧ (¬ has_key str_lower sv words →
          out_notices o = [st_success (AddedSuccessfully sv)]
          ∧ after = words ++ [mkItem sv en cat "0%" 0])).
Proof.
  cbn zeta. unfold main, add_page.
  pose proof (add_word_eq str_lower sv en cat (load_words fs).2) as Hadd.
  pose proof (existsb_same_key str_lower sv (load_words (load_words fs).2).1) as Hex.
  pose proof (load_words_twice fs) as Htwice.
  destruct (load_words fs) as [words fs1]. cbn [fst snd] in *.
  rewrite Htwice in Hex, Hadd.
  destruct add.
  - destruct (bool_decide (sv ≠ "") && bool_decide (en ≠ "") && bool_decide (cat ≠ ""))
      eqn:Hfilled.
    + apply andb_true_iff in Hfilled as [[Hsv Hen]%andb_true_iff Hcat].
      apply bool_decide_eq_true in Hsv, Hen, Hcat.
      destruct (add_word str_lower sv en cat fs1) as [added fs2].
      cbn [out_session out_words out_tape out_store out_notices].
      split; [done|]. split; [done|]. split; [done|]. split; [done|].
      split; [intros _ [?|[?|?]]; done|]. intros _ _ _ _.
      destruct (existsb (λ w, same_key str_lower (swedish w) sv) words) eqn:He;
        injection Hadd as -> ->.
      * split; [|intros Hk; by destruct Hk; apply Hex].
        intros _. split; [done|]. by rewrite load_words_twice.
      * split; [intros Hk%Hex; discriminate|].
        intros _. split; [done|]. by rewrite load_words_save.
    + cbn [out_session out_words out_tape out_store out_notices].
      split; [done|]. split; [done|]. split; [done|]. split; [done|].
      split; [done|]. intros _ Hsv Hen Hcat.
      rewrite !bool_decide_true in Hfilled by done. discriminate.
  - cbn [out_session out_words out_tape out_store out_notices].
    by repeat split.
Qed.

(** With no data file, a draw on any of the three pages shows that page's
    warning, takes no number from the generator and does not create the
    file. *)
Theorem draw_without_file (p : DrawPage) (show : bool) (now : Z)
    (ss : Session) (fs : Store) (tape : list nat) :
  file fs = None →
  let o := main str_lower ADMIN_PASSWORD (draw_menu p show) now ss fs tape in
  out_words o = [] ∧ out_store o = fs ∧ out_tape o = tape
  ∧ out_notices o = [st_warning match p with
                                | Mixture _ => NoNewWordsAvailable
                                | Category _ => NoWordsInThisCategory
                                end]
  ∧ current_word (out_session o) = current_word ss.
Proof.
  intros Hf. cbn zeta. rewrite main_draw_menu.
  assert (load_words fs = ([], fs)) as -> by (unfold load_words; by rewrite Hf).
  cbn [fst snd]. unfold after_show.
  destruct p as [d|c]; cbn [drawable].
  - rewrite available_words_eq. unfold select_random_mixture, rbind.
    assert (mixture_pool [] (ratios ss) = []) as -> by done.
    rewrite mixture_loop_no_pool. cbn [shuffle shuffle_from length Nat.sub rret fst snd].
    assert (not_recently_seen (exposure d) (prune now (recently_seen ss)) [] = [])
      as -> by done.
    cbn [draw_word out_words out_store out_tape out_notices out_session].
    by destruct (show_translation_fields show (prune_session now ss)) as (_ & _ & ->).
  - unfold rret. cbn [fst snd]. assert (filtered_words c [] = []) as -> by done.
    cbn [draw_from_category out_words out_store out_tape out_notices out_session].
    by destruct (show_translation_fields show ss) as (_ & _ & ->).
Qed.

End AddPage.

Lemma draw_without_file_witness :
  file no_store = None
  ∧ out_notices (main ascii_lower "secret" (draw_menu (Mixture SwedishToEnglish) false)
                      1000 new_session no_store demo_tape)
    = [st_warning NoNewWordsAvailable].
Proof.
  split; [reflexivity|].
  destruct (draw_without_file ascii_lower "secret" (Mixture SwedishToEnglish) false
              1000 new_session no_store demo_tape eq_refl) as (_ & _ & _ & Hn & _).
  exact Hn.
Defined.

Lemma add_page_effects_witness :
  out_notices (main ascii_lower "secret" (AddNewWord "Hund" "" "animals" true)
                    1000 new_session demo_store demo_tape)
  = [st_warning PleaseFillInAllFields].
Proof.
  destruct (add_page_effects ascii_lower "secret" "Hund" "" "animals" true
              1000 new_session demo_store demo_tape) as (_ & _ & _ & _ & Hempty & _).
  apply Hempty; [reflexivity|]. right. left. reflexivity.
Defined.

(** ** The ratio inputs *)

Lemma elem_of_dict_set (k : string) (v : Q) (d : Ratios) k' v' :
  NoDup d.*1 →
  (k', v') ∈ dict_set k v d ↔ (k' = k ∧ v' = v) ∨ (k' ≠ k ∧ (k', v') ∈ d).
Proof.
  induction d as [|[k0 v0] d IH]; intros Hnd.
  { cbn [dict_set]. rewrite list_elem_of_singleton. split.
    - intros [= -> ->]. by left.
    - intros [[-> ->]|[_ ?%elem_of_nil]]; done. }
  rewrite fmap_cons in Hnd. apply NoDup_cons in Hnd as [Hk0 Hnd].
  cbn [dict_set]. destruct (decide (k0 = k)) as [->|Hne].
  - rewrite !elem_of_cons. split.
    + intros [[= -> ->]|Hin]; [by left|]. right. split; [|by right].
      intros ->. apply Hk0. apply list_elem_of_fmap. by exists (k, v').
    + intros [[-> ->]|[Hne [[= -> ->]|Hin]]]; [by left|done|by right].
  - rewrite !elem_of_cons, IH by done. split.
    + intros [[= -> ->]|[[-> ->]|[? ?]]]; [|by left|].
      * right. split; [done|by left].
      * right. split; [done|by right].
    + intros [[-> ->]|[? [[= -> ->]|?]]]; [right; by left|by left|].
      right. right. by split.
Qed.

(** After the admin panel has read its five number inputs, every label of
    [LABELS] is a key of [ratios] with the value entered for it, every other
    key has the value it had, and the keys are still pairwise distinct. *)
Theorem adjust_ratios_lookup (ratio_input : string → Q) (d : Ratios) :
  NoDup d.*1 →
  NoDup (adjust_ratios ratio_input d).*1
  ∧ (∀ k v, ((k, v) ∈ adjust_ratios ratio_input d) ↔
            ((k ∈ LABELS ∧ v = ratio_input k) ∨ ((k ∉ LABELS) ∧ (k, v) ∈ d)))
  ∧ (∀ lbl, lbl ∈ LABELS → lbl ∈ (adjust_ratios ratio_input d).*1).
Proof.
  intros Hnd.
  assert (∀ k v, ((k, v) ∈ adjust_ratios ratio_input d) ↔
            ((k ∈ LABELS ∧ v = ratio_input k) ∨ ((k ∉ LABELS) ∧ (k, v) ∈ d))) as Hiff.
  { unfold adjust_ratios. generalize LABELS. intros labels. revert d Hnd.
    induction labels as [|lbl labels IH]; intros d Hnd k v.
    { cbn [foldl]. split; [|intros [[?%elem_of_nil _]|[_ ?]]; done].
      intros ?. right. split; [apply not_elem_of_nil|done]. }
    cbn [foldl].
    set (d0 := if decide (lbl ∈ d.*1) then d else dict_set lbl 0%Q d).
    assert (NoDup d0.*1) as Hnd0
      by (unfold d0; case_decide; [done|by apply dict_set_NoDup]).
    assert (∀ k' v', k' ≠ lbl → (k', v') ∈ d0 ↔ (k', v') ∈ d) as Hd0.
    { intros k' v' Hk'. unfold d0. case_decide; [done|].
      rewrite elem_of_dict_set by done. split; [by intros [[? _]|[_ ?]]|].
      intros ?. by right. }
    rewrite IH by (by apply dict_set_NoDup).
    rewrite elem_of_dict_set by done. rewrite elem_of_cons. fold d0.
    destruct (decide (k = lbl)) as [->|Hne].
    - assert (lbl = lbl) as Hrefl by done.
      destruct (decide (lbl ∈ labels)); tauto.
    - pose proof (Hd0 k v Hne). tauto. }
  split; [by apply adjust_ratios_NoDup|]. split; [done|].
  intros lbl Hlbl. apply list_elem_of_fmap. exists (lbl, ratio_input lbl).
  split; [done|]. apply Hiff. by left.
Qed.

Lemma adjust_ratios_lookup_witness :
  NoDup default_ratios.*1
  ∧ ("75%", 1%Q) ∈ adjust_ratios (λ _, 1%Q) default_ratios.
Proof.
  assert (NoDup default_ratios.*1) as Hnd
    by (by apply (bool_decide_unpack _); vm_compute).
  split; [exact Hnd|].
  destruct (adjust_ratios_lookup (λ _, 1%Q) default_ratios Hnd) as (_ & Hiff & _).
  apply Hiff. left. split; [|reflexivity]. do 3 right. left.
Defined.
